(** * MoodBeats backend: mood filter, track aggregator and playlist store

    A shallow embedding of [backend/server.js] and
    [backend/models/playlist.model.js].

    - JavaScript strings are sequences of UTF-16 code units ([JS.jsstring]);
      identifiers, URLs and the string constants of the source are plain
      [string]s.
    - An audio feature and a bound of a mood profile are rationals, the
      bounds being the decimal literals of the source: the source only
      compares these numbers, with [>=] and [<=].
    - What the handlers get from outside (the catalog's answers, the clock,
      a new ObjectId, the permutation picked by the random sort) is an
      explicit argument; [None] stands for a request that threw.
    - The document store is a record of collections, each a finite map from
      [_id] to document; every store call answers (a document or none): lost
      connections and index violations are outside the model.  A handler is
      a function from the store to a response and the store it leaves
      behind. *)

From Stdlib Require Import List String Ascii Bool Arith NArith QArith Lia Permutation.
From stdpp Require Import gmap strings list fin_maps.
Import ListNotations.

Set Implicit Arguments.

Local Open Scope string_scope.
Local Open Scope list_scope.

(** ** JavaScript values *)

Module JS.

(** A string is the list of its UTF-16 code units. *)
Definition jsstring := list N.

(** The string written with ASCII characters only. *)
Definition of_ascii (s : string) : jsstring :=
  map N_of_ascii (list_ascii_of_string s).

(** [a === b] on strings. *)
Fixpoint eqb (a b : jsstring) : bool :=
  match a, b with
  | [], [] => true
  | x :: a', y :: b' => N.eqb x y && eqb a' b'
  | _, _ => false
  end.

(** Truthiness of a string that may be [undefined]: [undefined] and the
    empty string are falsy. *)
Definition truthy (s : option jsstring) : bool :=
  match s with
  | Some (_ :: _) => true
  | _ => false
  end.

Definition truthy_id (s : option string) : bool :=
  match s with
  | Some (String _ _) => true
  | _ => false
  end.

(** [a || b] where [b] is a string. *)
Definition or_else (a : option jsstring) (b : jsstring) : jsstring :=
  match a with
  | Some (c :: s) => c :: s
  | _ => b
  end.

(** [l.join(', ')]. *)
Fixpoint join (sep : jsstring) (l : list jsstring) : jsstring :=
  match l with
  | [] => []
  | [s] => s
  | s :: l' => s ++ sep ++ join sep l'
  end.

(** [String.prototype.toLowerCase] restricted to what it does on ASCII
    letters; used to run the handlers on ASCII names. *)
Definition ascii_lower_unit (c : N) : N :=
  if (N.leb 65 c && N.leb c 90)%bool then (c + 32)%N else c.

Definition ascii_toLowerCase (s : jsstring) : jsstring :=
  map ascii_lower_unit s.

(** [re.test] for a character class made of one range: some code unit of
    the string lies in [lo, hi]. *)
Definition has_unit_in (lo hi : N) (s : jsstring) : bool :=
  existsb (fun c => N.leb lo c && N.leb c hi)%bool s.

(** [l.map(f)] with a callback that may throw. *)
Fixpoint map_throwing (A B : Type) (f : A -> option B) (l : list A) : option (list B) :=
  match l with
  | [] => Some []
  | x :: l' =>
      match f x with
      | None => None
      | Some y =>
          match map_throwing f l' with
          | None => None
          | Some ys => Some (y :: ys)
          end
      end
  end.

End JS.

Abbreviation jsstring := JS.jsstring.

(** ** The catalog's objects, as far as the handlers read them *)

Module Image.
Record t := mk { url : option string; height : option N; width : option N }.
(** The image of a document that has none: every path is [undefined]. *)
Definition none : t := mk None None None.
End Image.

Module Artist.
Record t := mk { name : jsstring }.
End Artist.

Module Album.
Record t := mk {
  id : string;
  name : jsstring;
  images : list Image.t;
  available_markets : option (list string)
}.
End Album.

Module Track.
Record t := mk {
  id : string;
  name : jsstring;
  artists : list Artist.t;
  album : option Album.t;
  preview_url : option string;
  external_urls : option (option string);  (* [external_urls?.spotify] *)
  duration_ms : N;
  uri : string
}.
End Track.

(** ** Mood filter *)

Module Mood.

Record AudioFeatures := {
  valence : Q;
  energy : Q;
  danceability : Q
}.

(** A profile gives, per dimension, the pair [[lo, hi]]. *)
Record MoodProfile := {
  p_valence : Q * Q;
  p_energy : Q * Q;
  p_danceability : Q * Q
}.

Definition range (lo hi : Q) : Q * Q := (lo, hi).

Definition happy : MoodProfile :=
  {| p_valence := range (6#10) 1; p_energy := range (5#10) 1;
     p_danceability := range (5#10) 1 |}.
Definition neutral : MoodProfile :=
  {| p_valence := range (3#10) (6#10); p_energy := range (3#10) (7#10);
     p_danceability := range (3#10) (7#10) |}.
Definition angry : MoodProfile :=
  {| p_valence := range 0 (4#10); p_energy := range (7#10) 1;
     p_danceability := range (3#10) (8#10) |}.
Definition sad : MoodProfile :=
  {| p_valence := range 0 (3#10); p_energy := range 0 (5#10);
     p_danceability := range 0 (5#10) |}.

(** What [moodProfiles[mood]] evaluates to: one of the four profiles, a
    member of [Object.prototype] (truthy, but without [valence]), or
    [undefined]. *)
Inductive property :=
| Own (p : MoodProfile)
| Inherited
| Undefined.

Definition object_prototype_keys : list string :=
  [ "constructor"; "toString"; "toLocaleString"; "valueOf"; "hasOwnProperty";
    "isPrototypeOf"; "propertyIsEnumerable"; "__proto__"; "__defineGetter__";
    "__defineSetter__"; "__lookupGetter__"; "__lookupSetter__" ].

Definition moodProfiles (mood : string) : property :=
  if String.eqb mood "happy" then Own happy
  else if String.eqb mood "neutral" then Own neutral
  else if String.eqb mood "angry" then Own angry
  else if String.eqb mood "sad" then Own sad
  else if existsb (String.eqb mood) object_prototype_keys then Inherited
  else Undefined.

Definition configured_moods : list string := [ "happy"; "neutral"; "angry"; "sad" ].

(** The body of the filter callback once [features] is there. *)
Definition matches (p : MoodProfile) (f : AudioFeatures) : bool :=
  Qle_bool (fst (p_valence p)) (valence f) &&
  Qle_bool (valence f) (snd (p_valence p)) &&
  Qle_bool (fst (p_energy p)) (energy f) &&
  Qle_bool (energy f) (snd (p_energy p)) &&
  Qle_bool (fst (p_danceability p)) (danceability f) &&
  Qle_bool (danceability f) (snd (p_danceability p)).

(** The filter callback at [index]; [None] is the [TypeError] of reading
    [valence[0]] from something that is not a profile. *)
Definition keeps (prof : property) (audio_features : list (option AudioFeatures))
    (index : nat) : option bool :=
  match nth_error audio_features index with
  | Some (Some features) =>
      match prof with
      | Own p => Some (matches p features)
      | _ => None
      end
  | _ => Some false
  end.

(** [tracks.filter((track, index) => ...)] with a callback that may throw. *)
Fixpoint filter_from (A : Type) (keep : nat -> option bool) (index : nat)
    (tracks : list A) : option (list A) :=
  match tracks with
  | [] => Some []
  | track :: rest =>
      match keep index with
      | None => None
      | Some b =>
          match filter_from keep (S index) rest with
          | None => None
          | Some kept => Some (if b then track :: kept else kept)
          end
      end
  end.

(** [get_audio_features ids] is the catalog's answer to the batch request
    for [ids]: the [audio_features] array, or [None] when the request
    threw. *)
Definition filterTracksByMood
    (get_audio_features : list string -> option (list (option AudioFeatures)))
    (tracks : list Track.t) (mood : string) : list Track.t :=
  match moodProfiles mood with
  | Undefined => tracks
  | moodProfile =>
      let trackIds := map Track.id tracks in
      match get_audio_features trackIds with
      | None => tracks
      | Some audio_features =>
          match filter_from (keeps moodProfile audio_features) 0 tracks with
          | Some kept => kept
          | None => tracks
          end
      end
  end.

(** *** The filter, as the specification words it *)

(** [x] lies in the closed interval [r]. *)
Definition within (r : Q * Q) (x : Q) : Prop := (fst r <= x /\ x <= snd r)%Q.

Definition in_profile (p : MoodProfile) (f : AudioFeatures) : Prop :=
  within (p_valence p) (valence f) /\
  within (p_energy p) (energy f) /\
  within (p_danceability p) (danceability f).

(** The track at position [i] has a feature triple, and it fits [p]. *)
Definition profiled (p : MoodProfile) (fs : list (option AudioFeatures)) (i : nat) : Prop :=
  exists f, nth_error fs i = Some (Some f) /\ in_profile p f.

Definition profiledb (p : MoodProfile) (fs : list (option AudioFeatures)) (i : nat) : bool :=
  match nth_error fs i with
  | Some (Some f) => matches p f
  | _ => false
  end.

(** The feature triple the batch answer holds for the track at position
    [i], when it holds one. *)
Definition feature_triple
    (get_audio_features : list string -> option (list (option AudioFeatures)))
    (tracks : list Track.t) (i : nat) : option AudioFeatures :=
  match get_audio_features (map Track.id tracks) with
  | Some fs =>
      match nth_error fs i with
      | Some (Some f) => Some f
      | _ => None
      end
  | None => None
  end.

(** The positions of [tracks] paired with the tracks, filtered. *)
Definition retained (A : Type) (p : MoodProfile) (fs : list (option AudioFeatures))
    (tracks : list A) : list A :=
  map fst (List.filter (fun ti => profiledb p fs (snd ti))
             (combine tracks (seq 0 (List.length tracks)))).

End Mood.

(** ** Responses *)

Module Http.

(** What a handler sends: [res.status(s).json(body)] ([res.json] is status
    200), or [res.status(s).json({ error })]. *)
Inductive response (A : Type) :=
| Json (status : nat) (body : A)
| Failure (status : nat) (error : string).

Arguments Json {A} status body.
Arguments Failure {A} status error.

Definition status (A : Type) (r : response A) : nat :=
  match r with
  | Json s _ => s
  | Failure s _ => s
  end.

(** Statuses from 400 on are error statuses. *)
Definition is_error (A : Type) (r : response A) : bool := Nat.leb 400 (status r).

End Http.

(** ** Track aggregator *)

Module Aggregator.

Record ArtistSource := {
  id : string;
  name : string;
  count : nat;
  language : string
}.

Definition artist (id name : string) (count : nat) (language : string) : ArtistSource :=
  Build_ArtistSource id name count language.

(** The sources of [/api/mixed]. *)
Definition mixed_artists : list ArtistSource :=
  [ artist "6eUKZXaKkcviH0Ku9w2n3V" "Ed Sheeran" 4 "english";
    artist "4YRxDV8wJFPHPTeXepOstw" "Arijit Singh" 7 "hindi";
    artist "5f4QpKfy7ptCHwTqspnSJI" "Neha Kakkar" 2 "hindi";
    artist "2FKWNmZWDBZR4dE5KX4plR" "Diljit Dosanjh" 7 "punjabi";
    artist "6cEuCEZuGdZg4X9UrhWZ1i" "Yung Kai Blue" 3 "punjabi" ].

(** The sources of [/api/mixed1]. *)
Definition mixed1_artists : list ArtistSource :=
  [ artist "6eUKZXaKkcviH0Ku9w2n3V" "Ed Sheeran" 10 "english";
    artist "6cEuCEZuGdZg4X9UrhWZ1i" "Yung Kai Blue" 5 "english";
    artist "06HL4z0CvFAxyc27GXpf02" "Taylor Swift" 10 "english";
    artist "6M2wZ9GZgrQXHCFfjv46DL" "Dua Lipa" 8 "english";
    artist "1Xyo4u8uXC1ZmMpatF05PJ" "The Weeknd" 8 "english";
    artist "7iK8PXO48WeuP03g8YR51W" "Billie Eilish" 7 "english";
    artist "4V8Sr092nmH6rQvmV0d3zF" "Post Malone" 7 "english";
    artist "0C8ZW7ezQVs4urJTLi2c5B" "Coldplay" 6 "english";
    artist "6KImCVD70vtIoJWnq6nGn3" "Harry Styles" 6 "english";
    artist "4YRxDV8wJFPHPTeXepOstw" "Arijit Singh" 10 "hindi";
    artist "0oOet2f43PA68X5RxKobEy" "Shreya Ghoshal" 8 "hindi";
    artist "5f4QpKfy7ptCHwTqspnSJI" "Neha Kakkar" 7 "hindi";
    artist "2FKWNmZWDBZR4dE5KX4plR" "Diljit Dosanjh" 8 "punjabi";
    artist "4PULA4EFzYTrxYvOVlwpiQ" "Sidhu Moosewala" 7 "punjabi";
    artist "5XacWe2kM6K9G2QJ1q8u0E" "Satinder Sartaaj" 7 "punjabi";
    artist "6gBhqjKxay1g6pDm1c4G1e" "Karan Aujla" 7 "punjabi";
    artist "0GF4shudTAFv8ak9eWdd4Y" "Kishore Kumar" 6 "hindi";
    artist "1mYsTxnqsietFxj1OgoGbG" "A.R. Rahman" 6 "hindi" ].

(** [{ ...track, primary_artist: artist.name, language: artist.language }] *)
Record Tagged := {
  track : Track.t;
  t_primary_artist : string;
  t_language : string
}.

Definition tag (a : ArtistSource) (track : Track.t) : Tagged :=
  {| track := track; t_primary_artist := name a; t_language := language a |}.

(** An element of the array sent by [/api/mixed] and [/api/mixed1]. *)
Record Song := {
  s_id : string;
  s_name : jsstring;
  s_artists : jsstring;
  primary_artist : string;
  s_language : string;
  image : string;
  external_url : string;
  preview_url : string
}.

(** [x || ''] *)
Definition or_empty (x : option string) : string :=
  match x with
  | Some s => s
  | None => ""
  end.

Definition artist_names (t : Track.t) : jsstring :=
  JS.join (JS.of_ascii ", ") (map Artist.name (Track.artists t)).

(** [track.album?.images?.[0]?.url] *)
Definition cover_url (t : Track.t) : option string :=
  match Track.album t with
  | Some album =>
      match Album.images album with
      | first :: _ => Image.url first
      | [] => None
      end
  | None => None
  end.

Definition song (t : Tagged) : Song :=
  {| s_id := Track.id (track t);
     s_name := Track.name (track t);
     s_artists := artist_names (track t);
     primary_artist := t_primary_artist t;
     s_language := t_language t;
     image := or_empty (cover_url (track t));
     external_url :=
       or_empty (match Track.external_urls (track t) with
                 | Some spotify => spotify
                 | None => None
                 end);
     preview_url := or_empty (Track.preview_url (track t)) |}.

(** One turn of [for (const artist of artists)]: the top tracks of the
    artist, cut to [artist.count] and tagged, are pushed on [allTracks];
    a request that threw is logged and pushes nothing.
    [top_tracks id] is the [tracks] array of the catalog's answer, [Some
    []] also standing for an answer without [tracks]. *)
Definition push_artist (top_tracks : string -> option (list Track.t))
    (allTracks : list Tagged) (a : ArtistSource) : list Tagged :=
  match top_tracks (id a) with
  | Some tracks =>
      if Nat.ltb 0 (List.length tracks)
      then allTracks ++ map (tag a) (firstn (count a) tracks)
      else allTracks
  | None => allTracks
  end.

Definition collect (top_tracks : string -> option (list Track.t))
    (artists : list ArtistSource) : list Tagged :=
  fold_left (push_artist top_tracks) artists [].

(** *** The aggregation, as the specification words it *)

(** What a source contributes: nothing when it failed to resolve, else
    its first [count] tracks, each tagged with the source. *)
Definition contribution (top_tracks : string -> option (list Track.t))
    (a : ArtistSource) : list Tagged :=
  match top_tracks (id a) with
  | Some tracks => map (tag a) (firstn (count a) tracks)
  | None => []
  end.

(** The source resolved. *)
Definition resolved (top_tracks : string -> option (list Track.t))
    (a : ArtistSource) : bool :=
  match top_tracks (id a) with
  | Some _ => true
  | None => false
  end.

(** An entry of a catalog playlist. *)
Record Item := { item_track : option Track.t }.

(** The three lists of [/api/mixed-hits], with the [limit] of each
    request. *)
Record ListSource := {
  l_label : string;
  l_id : string;
  l_limit : nat
}.

Definition english : ListSource := Build_ListSource "english" "37i9dQZF1DXcBWIGoYBM5M" 20.
Definition punjabi : ListSource := Build_ListSource "punjabi" "37i9dQZF1DWSVl9DWKB8AR" 15.
Definition hindi : ListSource := Build_ListSource "hindi" "37i9dQZF1DX0XUsuxWHRQd" 15.

(** An element of the array sent by [/api/mixed-hits]. *)
Record Hit := {
  h_id : string;
  h_name : jsstring;
  h_artists : jsstring;
  h_image : string;
  h_external_url : option string;
  h_preview_url : option string;
  h_language : string
}.

(** The language of a hit is read off the track: available in the market
    [IN] and named with a letter in अ..ह (U+0905..U+0939) is hindi, with a
    letter in ਁ..ੴ (U+0A01..U+0A74) is punjabi, everything else is
    english. *)
Definition language_of (album : Album.t) (name : jsstring) : string :=
  match Album.available_markets album with
  | Some markets =>
      if existsb (String.eqb "IN") markets
      then (if JS.has_unit_in 2309 2361 name then "hindi"
            else if JS.has_unit_in 2561 2676 name then "punjabi"
            else "english")
      else "english"
  | None => "english"
  end.

(** The callback of [shuffledTracks.map]; [None] is the [TypeError] of
    reading through a track without [album] or without [external_urls]. *)
Definition hit (t : Track.t) : option Hit :=
  match Track.album t, Track.external_urls t with
  | Some album, Some spotify =>
      Some {| h_id := Track.id t;
              h_name := Track.name t;
              h_artists := artist_names t;
              h_image := or_empty (match Album.images album with
                                   | first :: _ => Image.url first
                                   | [] => None
                                   end);
              h_external_url := spotify;
              h_preview_url := Track.preview_url t;
              h_language := language_of album (Track.name t) |}
  | _, _ => None
  end.

(** [items.filter(item => item.track).map(item => item.track)] *)
Definition tracks_of (items : list Item) : list Track.t :=
  flat_map (fun item => match item_track item with
                        | Some t => [t]
                        | None => []
                        end) items.

Section Handlers.

(** [l.sort(() => 0.5 - Math.random())]: the arrangement the random
    comparisons produce. *)
Variable shuffle : forall A : Type, list A -> list A.

(** [top_tracks]: the catalog's answers to the top-tracks requests. *)
Variable top_tracks : string -> option (list Track.t).

(** [playlist_tracks id limit]: the [items] of the catalog's answer to
    the request for the tracks of list [id]. *)
Variable playlist_tracks : string -> nat -> option (list Item).

(** [GET /api/mixed] *)
Definition mixed : Http.response (list Song) :=
  let allTracks := collect top_tracks mixed_artists in
  let songs := map song allTracks in
  let shuffledSongs := shuffle songs in
  Http.Json 200 shuffledSongs.

(** [GET /api/mixed1] *)
Definition mixed1 : Http.response (list Song) :=
  let allTracks := collect top_tracks mixed1_artists in
  let songs := map song allTracks in
  let shuffledSongs := firstn 50 (shuffle songs) in
  Http.Json 200 shuffledSongs.

(** [GET /api/mixed-hits]: [Promise.all] rejects as soon as one of the
    three requests does, and the handler's [catch] answers 500. *)
Definition mixed_hits : Http.response (list Hit) :=
  match playlist_tracks (l_id english) (l_limit english),
        playlist_tracks (l_id punjabi) (l_limit punjabi),
        playlist_tracks (l_id hindi) (l_limit hindi) with
  | Some englishRes, Some punjabiRes, Some hindiRes =>
      let allTracks := tracks_of (englishRes ++ punjabiRes ++ hindiRes) in
      let shuffledTracks := shuffle allTracks in
      match JS.map_throwing hit shuffledTracks with
      | Some songs => Http.Json 200 (firstn 50 songs)
      | None => Http.Failure 500 "Failed to fetch songs"
      end
  | _, _, _ => Http.Failure 500 "Failed to fetch songs"
  end.

End Handlers.

End Aggregator.

(** ** Documents of the store *)

Module Song.
Record doc := mk {
  _id : string;
  spotifyId : string;
  title : jsstring;
  artists : list jsstring;
  album_name : jsstring;
  album_spotifyId : string;
  album_image : Image.t;
  durationMs : N;
  previewUrl : option string;
  spotifyUri : string;
  addedAt : N
}.
End Song.

Module Playlist.
Record doc := mk {
  _id : string;
  name : jsstring;
  description : option jsstring;
  spotifyId : option string;
  user : string;
  songs : list string;
  image : Image.t;
  createdAt : N;
  updatedAt : N
}.

Definition set_songs (songs : list string) (p : doc) : doc :=
  mk (_id p) (name p) (description p) (spotifyId p) (user p) songs (image p)
     (createdAt p) (updatedAt p).

Definition set_updatedAt (updatedAt : N) (p : doc) : doc :=
  mk (_id p) (name p) (description p) (spotifyId p) (user p) (songs p) (image p)
     (createdAt p) updatedAt.
End Playlist.

Module User.
Record doc := mk {
  _id : string;
  name : option jsstring;
  username : string;
  email : string;
  password : string;
  spotifyId : option string;
  playlists : list string
}.

Definition set_playlists (playlists : list string) (u : doc) : doc :=
  mk (_id u) (name u) (username u) (email u) (password u) (spotifyId u) playlists.
End User.

(** ** The store *)

Module Db.

Record t := mk {
  users : gmap string User.doc;
  playlists : gmap string Playlist.doc;
  songs : gmap string Song.doc
}.

(** Writing a document puts it under its [_id]. *)
Definition write_playlist (p : Playlist.doc) (db : t) : t :=
  mk (users db) (<[Playlist._id p := p]> (playlists db)) (songs db).

Definition write_user (u : User.doc) (db : t) : t :=
  mk (<[User._id u := u]> (users db)) (playlists db) (songs db).

Definition write_song (s : Song.doc) (db : t) : t :=
  mk (users db) (playlists db) (<[Song._id s := s]> (songs db)).

(** [populate]: every reference that resolves is replaced by its
    document, in the order of the references; one that does not resolve
    is dropped. *)
Definition populate_songs (db : t) (refs : list string) : list Song.doc :=
  omap (fun id => songs db !! id) refs.

Definition populate_playlists (db : t) (refs : list string) : list Playlist.doc :=
  omap (fun id => playlists db !! id) refs.

(** [Song.findOne({ spotifyId })] *)
Definition song_with_spotifyId (db : t) (spotifyId : string) : option Song.doc :=
  List.find (fun s => String.eqb (Song.spotifyId s) spotifyId)
    (map snd (map_to_list (songs db))).

End Db.

(** ** The playlist schema: its hook and its methods

    A method runs on a document in memory ([this]) and on the store; it
    gives back the document and the store after it. *)

Module playlistSchema.

(** [pre('save')]: update the timestamp on save. *)
Definition pre_save (now : N) (this : Playlist.doc) : Playlist.doc :=
  Playlist.set_updatedAt now this.

Definition save (now : N) (this : Playlist.doc) (db : Db.t) : Playlist.doc * Db.t :=
  let this := pre_save now this in
  (this, Db.write_playlist this db).

(** [songs.includes(songId)]: an array of a document compares ObjectIds
    by their value. *)
Definition includes (songs : list string) (songId : string) : bool :=
  existsb (String.eqb songId) songs.

Definition addSong (now : N) (songId : string) (this : Playlist.doc) (db : Db.t)
    : Playlist.doc * Db.t :=
  if negb (includes (Playlist.songs this) songId)
  then save now (Playlist.set_songs (Playlist.songs this ++ [songId]) this) db
  else (this, db).

Definition removeSong (now : N) (songId : string) (this : Playlist.doc) (db : Db.t)
    : Playlist.doc * Db.t :=
  let songs := List.filter (fun id => negb (String.eqb id songId)) (Playlist.songs this) in
  save now (Playlist.set_songs songs this) db.

(** The catalog's description of a list, as far as [syncWithSpotify]
    reads it. *)
Record SpotifyData := {
  name : option jsstring;
  description : option jsstring;
  id : option string;
  images : option (list Image.t)
}.

Definition syncWithSpotify (now : N) (spotifyData : SpotifyData) (this : Playlist.doc)
    (db : Db.t) : Playlist.doc * Db.t :=
  let name := JS.or_else (name spotifyData) (Playlist.name this) in
  let description :=
    if JS.truthy (description spotifyData) then description spotifyData
    else Playlist.description this in
  let spotifyId :=
    if JS.truthy_id (id spotifyData) then id spotifyData
    else Playlist.spotifyId this in
  let image :=
    match images spotifyData with
    | Some (first :: _) =>
        Image.mk (Image.url first) (Image.height first) (Image.width first)
    | _ => Playlist.image this
    end in
  save now
    (Playlist.mk (Playlist._id this) name description spotifyId (Playlist.user this)
       (Playlist.songs this) image (Playlist.createdAt this) (Playlist.updatedAt this))
    db.

End playlistSchema.

(** ** The playlist routes *)

Module Routes.

(** What a request reads from outside the store: the clock, the ObjectId
    a new document gets, and the catalog's answer to [GET /v1/tracks/:id]
    ([None] when the request threw). *)
Record Env := {
  now : N;
  new_id : string;
  get_track : string -> option Track.t
}.

Record SongJson := {
  sj_id : string;
  sj_spotifyId : string;
  sj_title : jsstring;
  sj_artists : list jsstring;
  sj_album : jsstring;
  sj_image : option string;
  sj_previewUrl : option string;
  sj_spotifyUri : string
}.

Record PlaylistJson := {
  pj_id : string;
  pj_name : jsstring;
  pj_description : option jsstring;
  pj_songs : list SongJson;
  pj_image : Image.t;
  pj_createdAt : N;
  pj_updatedAt : N
}.

Record PlaybackJson := {
  playlistId : string;
  pb_name : jsstring;
  pb_songs : list SongJson
}.

Definition song_json (song : Song.doc) : SongJson :=
  {| sj_id := Song._id song;
     sj_spotifyId := Song.spotifyId song;
     sj_title := Song.title song;
     sj_artists := Song.artists song;
     sj_album := Song.album_name song;
     sj_image := Image.url (Song.album_image song);
     sj_previewUrl := Song.previewUrl song;
     sj_spotifyUri := Song.spotifyUri song |}.

Definition playlist_json (playlist : Playlist.doc) (songs : list SongJson) : PlaylistJson :=
  {| pj_id := Playlist._id playlist;
     pj_name := Playlist.name playlist;
     pj_description := Playlist.description playlist;
     pj_songs := songs;
     pj_image := Playlist.image playlist;
     pj_createdAt := Playlist.createdAt playlist;
     pj_updatedAt := Playlist.updatedAt playlist |}.

(** [new Playlist({ name, description: description || '', user: userId })] *)
Definition new_Playlist (env : Env) (name : jsstring) (description : option jsstring)
    (userId : string) : Playlist.doc :=
  Playlist.mk (new_id env) name (Some (JS.or_else description [])) None userId []
    Image.none (now env) (now env).

(** The playlists the routes can hold in their hands: a new playlist, and
    what [save] or a method gives back on one of them. *)
Inductive made : Playlist.doc -> Prop :=
| made_new (env : Env) (name : jsstring) (description : option jsstring) (userId : string) :
    made (new_Playlist env name description userId)
| made_save (now : N) (this : Playlist.doc) (db : Db.t) :
    made this -> made (fst (playlistSchema.save now this db))
| made_addSong (now : N) (songId : string) (this : Playlist.doc) (db : Db.t) :
    made this -> made (fst (playlistSchema.addSong now songId this db))
| made_removeSong (now : N) (songId : string) (this : Playlist.doc) (db : Db.t) :
    made this -> made (fst (playlistSchema.removeSong now songId this db))
| made_syncWithSpotify (now : N) (spotifyData : playlistSchema.SpotifyData)
    (this : Playlist.doc) (db : Db.t) :
    made this -> made (fst (playlistSchema.syncWithSpotify now spotifyData this db)).

(** The update document of [Song.findOneAndUpdate]; [None] is the
    [TypeError] of reading [track.album.name] from a track without
    album.  [_id] and [addedAt] are those of the document found, or the
    ones a new document gets. *)
Definition song_update (track : Track.t) (_id : string) (addedAt : N) : option Song.doc :=
  match Track.album track with
  | Some album =>
      Some (Song.mk _id (Track.id track) (Track.name track)
              (map Artist.name (Track.artists track))
              (Album.name album) (Album.id album)
              (match Album.images album with
               | first :: _ =>
                   Image.mk (Image.url first) (Image.height first) (Image.width first)
               | [] => Image.none
               end)
              (Track.duration_ms track) (Track.preview_url track) (Track.uri track) addedAt)
  | None => None
  end.

(** [Song.findOneAndUpdate({ spotifyId: track.id }, ..., { upsert: true,
    new: true })] *)
Definition findOneAndUpdate (env : Env) (track : Track.t) (db : Db.t)
    : option (Song.doc * Db.t) :=
  let target :=
    match Db.song_with_spotifyId db (Track.id track) with
    | Some found => (Song._id found, Song.addedAt found)
    | None => (new_id env, now env)
    end in
  match song_update track (fst target) (snd target) with
  | Some song => Some (song, Db.write_song song db)
  | None => None
  end.

(** The callback of [songs.map] in the [DELETE] handler reads
    [savsong.spotifyId]; no [savsong] is declared, so the callback throws
    a [ReferenceError] on the first song it is given. *)
Definition song_json_savsong (song : Song.doc) : option SongJson := None.

(** [seenNames.has], [seenNames.add] and the filter of [GET
    /api/playlists] that runs between them. *)
Section Names.

(** [String.prototype.toLowerCase] *)
Variable toLowerCase : jsstring -> jsstring.

(** The name under which a playlist is compared. *)
Definition name_lower (playlist : Playlist.doc) : jsstring :=
  toLowerCase (Playlist.name playlist).

Fixpoint unique_by_name (seenNames : gset (list N)) (playlists : list Playlist.doc)
    : list Playlist.doc :=
  match playlists with
  | [] => []
  | playlist :: rest =>
      let nameLower := name_lower playlist in
      if bool_decide (nameLower ∈ seenNames)
      then unique_by_name seenNames rest
      else playlist :: unique_by_name ({[ nameLower ]} ∪ seenNames) rest
  end.

(** [POST /api/playlists] *)
Definition post_playlists (env : Env) (userId : string)
    (name description : option jsstring) (db : Db.t)
    : Http.response PlaylistJson * Db.t :=
  match name with
  | Some (c :: s) =>
      let name := c :: s in
      match Db.users db !! userId with
      | None => (Http.Failure 404 "User not found", db)
      | Some user =>
          let playlists := Db.populate_playlists db (User.playlists user) in
          match List.find (fun p => JS.eqb (toLowerCase (Playlist.name p))
                                      (toLowerCase name)) playlists with
          | Some existingPlaylist =>
              (Http.Failure 400 "A playlist with this name already exists", db)
          | None =>
              let (playlist, db) :=
                playlistSchema.save (now env) (new_Playlist env name description userId) db in
              let user :=
                User.set_playlists (User.playlists user ++ [Playlist._id playlist]) user in
              let db := Db.write_user user db in
              (Http.Json 201 (playlist_json playlist []), db)
          end
      end
  | _ => (Http.Failure 400 "Playlist name is required", db)
  end.

(** [GET /api/playlists] *)
Definition get_playlists (userId : string) (db : Db.t)
    : Http.response (list PlaylistJson) * Db.t :=
  match Db.users db !! userId with
  | None => (Http.Failure 404 "User not found", db)
  | Some user =>
      let playlists := Db.populate_playlists db (User.playlists user) in
      let uniquePlaylists := unique_by_name ∅ playlists in
      (Http.Json 200
         (map (fun playlist =>
                 playlist_json playlist
                   (map song_json (Db.populate_songs db (Playlist.songs playlist))))
            uniquePlaylists),
       db)
  end.

End Names.

(** [POST /api/playlists/:playlistId/songs] *)
Definition post_playlist_songs (env : Env) (userId playlistId : string)
    (spotifyId : option string) (db : Db.t) : Http.response PlaylistJson * Db.t :=
  match spotifyId with
  | Some (String c s) =>
      let spotifyId := String c s in
      match Db.playlists db !! playlistId with
      | None => (Http.Failure 404 "Playlist not found", db)
      | Some playlist =>
          if negb (String.eqb (Playlist.user playlist) userId)
          then (Http.Failure 403 "Unauthorized: Not your playlist", db)
          else
            match get_track env spotifyId with
            | None => (Http.Failure 500 "Failed to add song to playlist", db)
            | Some track =>
                match findOneAndUpdate env track db with
                | None => (Http.Failure 500 "Failed to add song to playlist", db)
                | Some (song, db) =>
                    let (playlist, db) :=
                      playlistSchema.addSong (now env) (Song._id song) playlist db in
                    let songs := Db.populate_songs db (Playlist.songs playlist) in
                    (Http.Json 200 (playlist_json playlist (map song_json songs)), db)
                end
            end
      end
  | _ => (Http.Failure 400 "Spotify track ID is required", db)
  end.

(** [DELETE /api/playlists/:playlistId/songs/:songId] *)
Definition delete_playlist_song (env : Env) (userId playlistId songId : string)
    (db : Db.t) : Http.response PlaylistJson * Db.t :=
  match Db.playlists db !! playlistId with
  | None => (Http.Failure 404 "Playlist not found", db)
  | Some playlist =>
      if negb (String.eqb (Playlist.user playlist) userId)
      then (Http.Failure 403 "Unauthorized: Not your playlist", db)
      else
        let (playlist, db) := playlistSchema.removeSong (now env) songId playlist db in
        let songs := Db.populate_songs db (Playlist.songs playlist) in
        match JS.map_throwing song_json_savsong songs with
        | Some songs => (Http.Json 200 (playlist_json playlist songs), db)
        | None => (Http.Failure 500 "Failed to remove song from playlist", db)
        end
  end.

(** [GET /api/playlists/:playlistId/play] *)
Definition get_playlist_play (userId playlistId : string) (db : Db.t)
    : Http.response PlaybackJson * Db.t :=
  match Db.playlists db !! playlistId with
  | None => (Http.Failure 404 "Playlist not found", db)
  | Some playlist =>
      if negb (String.eqb (Playlist.user playlist) userId)
      then (Http.Failure 403 "Unauthorized: Not your playlist", db)
      else
        let songs := Db.populate_songs db (Playlist.songs playlist) in
        (Http.Json 200
           {| playlistId := Playlist._id playlist;
              pb_name := Playlist.name playlist;
              pb_songs := map song_json songs |},
         db)
  end.

End Routes.

(** ** Sample data *)

Module Sample.

Definition in_india : Album.t :=
  Album.mk "al1" (JS.of_ascii "Lover") [Image.mk (Some "https://i.scdn.co/1") (Some 640%N) (Some 640%N)]
    (Some ["IN"; "US"]).

Definition lover : Track.t :=
  Track.mk "t1" (JS.of_ascii "Lover") [Artist.mk (JS.of_ascii "Diljit Dosanjh")]
    (Some in_india) None (Some (Some "https://open.spotify.com/track/t1")) 200000
    "spotify:track:t1".

Definition shape : Track.t :=
  Track.mk "t2" (JS.of_ascii "Shape of You") [Artist.mk (JS.of_ascii "Ed Sheeran")]
    (Some in_india) None (Some (Some "https://open.spotify.com/track/t2")) 233000
    "spotify:track:t2".

(** A batch answer: sad features for the first track, none for the
    second. *)
Definition audio_features : list string -> option (list (option Mood.AudioFeatures)) :=
  fun _ => Some [Some (Mood.Build_AudioFeatures (2#10) (5#10) 0); None].

(** Top tracks: Ed Sheeran's resolve, every other request throws. *)
Definition only_ed_sheeran (id : string) : option (list Track.t) :=
  if String.eqb id "6eUKZXaKkcviH0Ku9w2n3V" then Some [shape] else None.

(** The three lists: the english one throws, the punjabi one holds
    [lover], the hindi one is empty. *)
Definition lists_english_down (id : string) (limit : nat)
    : option (list Aggregator.Item) :=
  if String.eqb id "37i9dQZF1DXcBWIGoYBM5M" then None
  else if String.eqb id "37i9dQZF1DWSVl9DWKB8AR"
       then Some [Aggregator.Build_Item (Some lover)]
       else Some [].

(** The three lists: only the punjabi one holds a track, [lover]. *)
Definition lists_punjabi_only (id : string) (limit : nat)
    : option (list Aggregator.Item) :=
  if String.eqb id "37i9dQZF1DWSVl9DWKB8AR"
  then Some [Aggregator.Build_Item (Some lover)]
  else Some [].

(** A random sort that happens to leave the array as it is. *)
Definition keep_order (A : Type) (l : list A) : list A := l.

(** A store: alice owns the playlist Chill, which holds two songs;
    mallory owns nothing. *)
Definition alice_id : string := "65a1f0c2e4b0a1b2c3d4e501".
Definition mallory_id : string := "65a1f0c2e4b0a1b2c3d4e502".
Definition chill_id : string := "65a1f0c2e4b0a1b2c3d4e511".
Definition song1_id : string := "65a1f0c2e4b0a1b2c3d4e521".
Definition song2_id : string := "65a1f0c2e4b0a1b2c3d4e522".
Definition absent_id : string := "65a1f0c2e4b0a1b2c3d4e5ff".

Definition song1 : Song.doc :=
  Song.mk song1_id "t1" (JS.of_ascii "Lover") [JS.of_ascii "Diljit Dosanjh"]
    (JS.of_ascii "Lover") "al1" Image.none 200000 None "spotify:track:t1" 1.

Definition song2 : Song.doc :=
  Song.mk song2_id "t2" (JS.of_ascii "Shape of You") [JS.of_ascii "Ed Sheeran"]
    (JS.of_ascii "Divide") "al2" Image.none 233000 None "spotify:track:t2" 2.

Definition chill : Playlist.doc :=
  Playlist.mk chill_id (JS.of_ascii "Chill") (Some []) None alice_id
    [song1_id; song2_id] Image.none 3 5.

Definition alice : User.doc :=
  User.mk alice_id None "alice" "alice@example.org" "$2a$10$hash" None [chill_id].

Definition mallory : User.doc :=
  User.mk mallory_id None "mallory" "mallory@example.org" "$2a$10$hash" None [].

Definition db : Db.t :=
  Db.mk (<[alice_id := alice]> (<[mallory_id := mallory]> ∅))
        (<[chill_id := chill]> ∅)
        (<[song1_id := song1]> (<[song2_id := song2]> ∅)).

(** A request served at time 10; a document created by it gets the id
    [new_id]. *)
Definition new_id : string := "65a1f0c2e4b0a1b2c3d4e5a0".

Definition env : Routes.Env :=
  Routes.Build_Env 10 new_id
    (fun id => if String.eqb id "t1" then Some lover else None).

(** A later request, served at time 20. *)
Definition env2 : Routes.Env :=
  Routes.Build_Env 20 "65a1f0c2e4b0a1b2c3d4e5a1" (fun _ => None).

(** A store where bob holds three playlists: Chill, chill and Work. *)
Definition bob_id : string := "65a1f0c2e4b0a1b2c3d4e503".
Definition list1_id : string := "65a1f0c2e4b0a1b2c3d4e512".
Definition list2_id : string := "65a1f0c2e4b0a1b2c3d4e513".
Definition list3_id : string := "65a1f0c2e4b0a1b2c3d4e514".

Definition named (id name : string) : Playlist.doc :=
  Playlist.mk id (JS.of_ascii name) (Some []) None bob_id [] Image.none 1 1.

Definition bob : User.doc :=
  User.mk bob_id None "bob" "bob@example.org" "$2a$10$hash" None
    [list1_id; list2_id; list3_id].

Definition db_bob : Db.t :=
  Db.mk (<[bob_id := bob]> ∅)
        (<[list1_id := named list1_id "Chill"]>
           (<[list2_id := named list2_id "chill"]>
              (<[list3_id := named list3_id "Work"]> ∅)))
        ∅.

(** A catalog description that carries nothing. *)
Definition no_data : playlistSchema.SpotifyData :=
  playlistSchema.Build_SpotifyData None None None None.

(** A catalog description with a name and a cover, and no description. *)
Definition renamed : playlistSchema.SpotifyData :=
  playlistSchema.Build_SpotifyData (Some (JS.of_ascii "Chill Hits")) None (Some "37i9dQZF1DX4WYpdgoIcn6")
    (Some [Image.mk (Some "https://i.scdn.co/2") (Some 300%N) (Some 300%N)]).

(** A catalog whose batch request for audio features throws. *)
Definition no_audio_features : list string -> option (list (option Mood.AudioFeatures)) :=
  fun _ => None.

End Sample.

(** ** The catalog credential *)

Module Token.

(** [let accessToken = '']: the value the module starts with. *)
Definition initial : option string := Some "".

(** [getAccessToken]: [post_token] is the [access_token] of the token
    endpoint's answer ([Some None] when the answer carries none), or [None]
    when the request threw.  The result is whether the call returned
    (rather than rethrew), with the [accessToken] it leaves. *)
Definition getAccessToken (post_token : option (option string))
    (accessToken : option string) : bool * option string :=
  match post_token with
  | Some access_token => (true, access_token)
  | None => (false, accessToken)
  end.

(** [ensureAccessToken] *)
Definition ensureAccessToken (post_token : option (option string))
    (accessToken : option string) : bool * option string :=
  if negb (JS.truthy_id accessToken)
  then getAccessToken post_token accessToken
  else (true, accessToken).

(** One [ensureAccessToken] per request, each with the answer the token
    endpoint would give at that moment; the [accessToken] after the last. *)
Definition after_requests (answers : list (option (option string)))
    (accessToken : option string) : option string :=
  fold_left (fun token answer => snd (ensureAccessToken answer token)) answers accessToken.

End Token.

(** ** The catalog proxies *)

Module Catalog.

(** An element of the array [formatTracks] builds. *)
Record Formatted := {
  id : string;
  name : jsstring;
  artists : jsstring;
  album : option jsstring;
  image : option string;
  preview_url : option string;
  external_url : option string;
  mood : option string
}.

(** [x || null] on strings *)
Definition or_null (x : option string) : option string :=
  match x with
  | Some (String c s) => Some (String c s)
  | _ => None
  end.

Definition or_null_js (x : option jsstring) : option jsstring :=
  match x with
  | Some (c :: s) => Some (c :: s)
  | _ => None
  end.

Definition format (mood : option string) (track : Track.t) : Formatted :=
  {| id := Track.id track;
     name := Track.name track;
     artists := Aggregator.artist_names track;
     album := or_null_js (match Track.album track with
                          | Some album => Some (Album.name album)
                          | None => None
                          end);
     image := or_null (Aggregator.cover_url track);
     preview_url := or_null (Track.preview_url track);
     external_url := or_null (match Track.external_urls track with
                              | Some spotify => spotify
                              | None => None
                              end);
     mood := mood |}.

(** [formatTracks(tracks, mood = null)] *)
Definition formatTracks (tracks : list Track.t) (mood : option string) : list Formatted :=
  map (format mood) tracks.

(** An album of [/v1/browse/new-releases]. *)
Record Release := {
  r_id : string;
  r_name : jsstring;
  r_artists : list Artist.t;
  r_images : list Image.t;
  r_external_urls : option (option string)
}.

(** An element of the array sent by [/api/new-releases]. *)
Record ReleaseSong := {
  rs_id : string;
  rs_name : jsstring;
  rs_artists : jsstring;
  rs_image : option string;
  rs_preview_url : option string;
  rs_external_url : option string
}.

(** The callback of [items.map]; [None] is the [TypeError] of reading
    [spotify] from an album without [external_urls]. *)
Definition release_song (album : Release) : option ReleaseSong :=
  match r_external_urls album with
  | Some spotify =>
      Some {| rs_id := r_id album;
              rs_name := r_name album;
              rs_artists := JS.join (JS.of_ascii ", ") (map Artist.name (r_artists album));
              rs_image := or_null (match r_images album with
                                   | first :: _ => Image.url first
                                   | [] => None
                                   end);
              rs_preview_url := None;
              rs_external_url := spotify |}
  | None => None
  end.

(** [GET /api/new-releases]; [new_releases] is [albums.items] of the
    catalog's answer, or [None] when the request threw. *)
Definition get_new_releases (new_releases : option (list Release))
    : Http.response (list ReleaseSong) :=
  match new_releases with
  | Some items =>
      match JS.map_throwing release_song items with
      | Some songs => Http.Json 200 songs
      | None => Http.Failure 500 "Failed to fetch new releases"
      end
  | None => Http.Failure 500 "Failed to fetch new releases"
  end.

(** An element of the array sent by [/api/songs/:mood]. *)
Record MoodSong := {
  ms_id : string;
  ms_name : jsstring;
  ms_artists : jsstring;
  ms_album : jsstring;
  ms_image : option string;
  ms_preview_url : option string;
  ms_external_url : option string
}.

(** The callback of [items.map] in [/api/songs/:mood]; [None] is the
    [TypeError] of reading through a track without [album] or without
    [external_urls]. *)
Definition mood_song (track : Track.t) : option MoodSong :=
  match Track.album track, Track.external_urls track with
  | Some album, Some spotify =>
      Some {| ms_id := Track.id track;
              ms_name := Track.name track;
              ms_artists := Aggregator.artist_names track;
              ms_album := Album.name album;
              ms_image := or_null (match Album.images album with
                                   | first :: _ => Image.url first
                                   | [] => None
                                   end);
              ms_preview_url := Track.preview_url track;
              ms_external_url := spotify |}
  | _, _ => None
  end.

(** [GET /api/songs/:mood]; [search q limit] is [tracks.items] of the
    catalog's answer to the track search for [q] ([Some []] also standing
    for an answer without [tracks]), or [None] when the request threw. *)
Definition get_songs_mood (search : string -> nat -> option (list Track.t))
    (mood : string) : Http.response (list MoodSong) :=
  match mood with
  | "" => Http.Failure 400 "Mood parameter is required"
  | _ =>
      let limit := 50 in
      match search mood limit with
      | Some items =>
          if Nat.eqb (List.length items) 0
          then Http.Failure 404 ("No " ++ mood ++ " songs found")
          else
            match JS.map_throwing mood_song items with
            | Some songs => Http.Json 200 songs
            | None => Http.Failure 500 "Failed to fetch songs from Spotify"
            end
      | None => Http.Failure 500 "Failed to fetch songs from Spotify"
      end
  end.

(** [GET /api/search/songs?q=] *)
Definition get_search_songs (search : string -> nat -> option (list Track.t))
    (q : option string) : Http.response (list Formatted) :=
  match q with
  | Some (String c s) =>
      match search (String c s) 20 with
      | Some tracks => Http.Json 200 (formatTracks tracks None)
      | None => Http.Failure 500 "Failed to search songs"
      end
  | _ => Http.Failure 400 "Search query is required"
  end.

(** The artists [/api/artist-top-tracks/:artistId] searches by name. *)
Definition specialArtists : list (string * string) :=
  [ ("5XacWe2kM6K9G2QJ1q8u0E", "Satinder Sartaaj");
    ("6gBhqjKxay1g6pDm1c4G1e", "Karan Aujla");
    ("5T2Qp1HkQJ9QY9Q5Q5Q5Q5", "Mohammed Rafi");
    ("1dRPPaUIU9UqWQY3hQ5Q5q", "Lata Mangeshkar") ].

Section TopTracks.

(** The text JavaScript makes of the member of [Object.prototype] with
    the given name: what [specialArtists[artistId]] gives the search when
    [artistId] is such a name. *)
Variable prototype_text : string -> string.

(** [specialArtists[artistId]]: [None] is [undefined]. *)
Definition special_name (artistId : string) : option string :=
  match List.find (fun entry => String.eqb (fst entry) artistId) specialArtists with
  | Some entry => Some (snd entry)
  | None =>
      if existsb (String.eqb artistId) Mood.object_prototype_keys
      then Some (prototype_text artistId)
      else None
  end.

(** The catalog's answers: the [tracks] of the top-tracks request ([Some []]
    also standing for an answer without [tracks], which [|| []] replaces),
    the ids of the [items] of the albums request (limit 1), the [items] of
    an album's tracks and the [tracks.items] of a search by name.  [None]
    is a request that threw, or an answer that lacks what the handler reads
    through inside the [try]; for an album's tracks and for the search,
    [Some None] is an answer whose [items] is [undefined]. *)
Variable top_tracks : string -> option (list Track.t).
Variable albums : string -> option (list string).
Variable album_tracks : string -> option (option (list Track.t)).
Variable search_name : string -> option (option (list Track.t)).

(** The second [try]: [tracks] after it, [None] being [undefined] (the
    assignment [tracks = albumTracks.data.items] of an answer without
    [items]). *)
Definition album_approach (artistId : string) (tracks : list Track.t)
    : option (list Track.t) :=
  match albums artistId with
  | Some (first :: _) =>
      match album_tracks first with
      | Some items => items
      | None => Some tracks
      end
  | _ => Some tracks
  end.

(** The third [try], for the name [specialArtists[artistId]] gave:
    [tracks] after it, [None] being [undefined]. *)
Definition search_approach (name : string) (tracks : list Track.t)
    : option (list Track.t) :=
  match search_name name with
  | Some items => items
  | None => Some tracks
  end.

(** [formatTracks(tracks)] for a [tracks] that may be [undefined]: [None]
    is the [TypeError] of [tracks.map]. *)
Definition format_or_throw (tracks : option (list Track.t)) : option (list Formatted) :=
  match tracks with
  | Some tracks => Some (formatTracks tracks None)
  | None => None
  end.

(** The body of the handler's outer [try], up to the array it sends;
    [None] is an exception that reaches the outer [catch]: the
    [TypeError] of [tracks.length] (the test before the third [try], which
    no inner [try] encloses) or of [tracks.map], for a [tracks] that is
    [undefined]. *)
Definition artist_tracks (artistId : string) : option (list Formatted) :=
  let tracks :=
    match top_tracks artistId with
    | Some tracks => tracks
    | None => []
    end in
  if Nat.eqb (List.length tracks) 0
  then
    match album_approach artistId tracks with
    | Some tracks =>
        match Nat.eqb (List.length tracks) 0, special_name artistId with
        | true, Some name => format_or_throw (search_approach name tracks)
        | _, _ => format_or_throw (Some tracks)
        end
    | None => None
    end
  else format_or_throw (Some tracks).

(** [GET /api/artist-top-tracks/:artistId].  [post_token] is the token
    endpoint's answer (as for [Token.getAccessToken]) and [accessToken]
    the credential held when the request arrives; the result is the
    response, if one is sent, with the credential held afterwards.
    [await ensureAccessToken()] stands before the [try]: when it throws,
    the handler ends without sending a response. *)
Definition get_artist_top_tracks (post_token : option (option string))
    (accessToken : option string) (artistId : string)
    : option (Http.response (list Formatted)) * option string :=
  match Token.ensureAccessToken post_token accessToken with
  | (true, accessToken) =>
      (Some match artist_tracks artistId with
            | Some sent => Http.Json 200 sent
            | None => Http.Failure 500 "Failed to fetch artist top tracks"
            end,
       accessToken)
  | (false, accessToken) => (None, accessToken)
  end.

End TopTracks.

End Catalog.

(** ** Notions the properties below are stated with *)

Module Notions.

(** Some position from [i] on, below [i + n], holds a feature triple. *)
Definition triple_from (fs : list (option Mood.AudioFeatures)) (i n : nat) : bool :=
  existsb (fun j => match nth_error fs j with
                    | Some (Some _) => true
                    | _ => false
                    end) (seq i n).

(** Every song of the store is stored under its own [_id]. *)
Definition songs_keyed (db : Db.t) : Prop :=
  forall k s, Db.songs db !! k = Some s -> Song._id s = k.

(** No two songs of the store have the same catalog id (the unique index
    on [spotifyId]). *)
Definition spotifyId_unique (db : Db.t) : Prop :=
  forall k1 k2 s1 s2,
    Db.songs db !! k1 = Some s1 -> Db.songs db !! k2 = Some s2 ->
    Song.spotifyId s1 = Song.spotifyId s2 -> k1 = k2.

End Notions.

(** ** More sample data *)

Module Fixtures.

(** A track as an album's track list gives it: without album. *)
Definition single : Track.t :=
  Track.mk "t3" (JS.of_ascii "Perfect") [Artist.mk (JS.of_ascii "Ed Sheeran")]
    None None (Some (Some "https://open.spotify.com/track/t3")) 263000
    "spotify:track:t3".

(** A later request of the same client: the catalog still knows the track
    "t1". *)
Definition env_later : Routes.Env :=
  Routes.Build_Env 30 "65a1f0c2e4b0a1b2c3d4e5a2"
    (fun id => if String.eqb id "t1" then Some Sample.lover else None).

(** Alice's playlist with one song only, and a store that holds it. *)
Definition chill_one_song : Playlist.doc :=
  Playlist.set_songs [Sample.song1_id] Sample.chill.

Definition db_one_song : Db.t :=
  Db.write_playlist chill_one_song Sample.db.

(** A store where bob's three playlists have distinct names: Chill, Gym
    and Work. *)
Definition db_bob_distinct : Db.t :=
  Db.write_playlist (Sample.named Sample.list2_id "Gym") Sample.db_bob.

End Fixtures.

(** * Properties *)

(** ** Strings *)

Module JSFacts.

Lemma eqb_eq (a b : jsstring) : JS.eqb a b = true <-> a = b.
Proof.
  revert b; induction a as [|x a IH]; intros [|y b]; simpl;
    try (split; [discriminate | congruence]); try tauto.
  rewrite andb_true_iff, N.eqb_eq, IH.
  split; [intros [-> ->]; reflexivity | intros H; inversion H; auto].
Qed.

Lemma eqb_neq (a b : jsstring) : JS.eqb a b = false <-> a <> b.
Proof.
  rewrite <- eqb_eq. destruct (JS.eqb a b); split; congruence.
Qed.

Lemma map_throwing_In (A B : Type) (f : A -> option B) (l : list A) (ys : list B) (y : B) :
  JS.map_throwing f l = Some ys -> In y ys -> exists x, In x l /\ f x = Some y.
Proof.
  revert ys; induction l as [|x l IH]; simpl; intros ys H Hy.
  - inversion H; subst. contradiction.
  - destruct (f x) as [y'|] eqn:E; [|discriminate].
    destruct (JS.map_throwing f l) as [ys'|]; [|discriminate].
    inversion H; subst. destruct Hy as [<- | Hy].
    + exists x. auto.
    + destruct (IH ys' eq_refl Hy) as (x' & Hx' & Hf). exists x'. auto.
Qed.

End JSFacts.

(** ** Mood filter *)

Module MoodFacts.

Import Mood.

Lemma matches_in_profile (p : MoodProfile) (f : AudioFeatures) :
  matches p f = true <-> in_profile p f.
Proof.
  unfold matches, in_profile, within.
  rewrite !andb_true_iff, !Qle_bool_iff. tauto.
Qed.

Lemma profiledb_profiled (p : MoodProfile) (fs : list (option AudioFeatures)) (i : nat) :
  profiledb p fs i = true <-> profiled p fs i.
Proof.
  unfold profiledb, profiled. destruct (nth_error fs i) as [[f|]|].
  - rewrite matches_in_profile. split.
    + intros H; exists f; auto.
    + intros (f' & E & H); inversion E; subst; exact H.
  - split; [discriminate | intros (f & E & _); discriminate].
  - split; [discriminate | intros (f & E & _); discriminate].
Qed.

Lemma keeps_own (p : MoodProfile) (fs : list (option AudioFeatures)) (i : nat) :
  keeps (Own p) fs i = Some (profiledb p fs i).
Proof. unfold keeps, profiledb. now destruct (nth_error fs i) as [[f|]|]. Qed.

(** With a profile the callback never throws, and the loop is the filter
    over the positions from [i] on. *)
Lemma filter_from_own (A : Type) (p : MoodProfile) (fs : list (option AudioFeatures))
    (tracks : list A) (i : nat) :
  filter_from (keeps (Own p) fs) i tracks =
  Some (map fst (List.filter (fun ti => profiledb p fs (snd ti))
                   (combine tracks (seq i (List.length tracks))))).
Proof.
  revert i; induction tracks as [|t tracks IH]; intros i; simpl; [reflexivity|].
  rewrite keeps_own, IH. now destruct (profiledb p fs i).
Qed.

Lemma in_combine_seq (A : Type) (l : list A) (k i : nat) (x : A) :
  In (x, i) (combine l (seq k (List.length l))) <->
  (k <= i)%nat /\ nth_error l (i - k) = Some x.
Proof.
  revert k; induction l as [|y l IH]; intros k; simpl.
  - split; [tauto | intros [_ H]; now destruct (i - k)%nat].
  - rewrite IH. split.
    + intros [E | [Hle Hn]].
      * inversion E; subst. rewrite Nat.sub_diag. split; [lia | reflexivity].
      * split; [lia|]. replace (i - k)%nat with (S (i - S k)) by lia. exact Hn.
    + intros [Hle Hn]. destruct (i - k)%nat as [|d] eqn:E.
      * left. inversion Hn; subst. f_equal. lia.
      * right. split; [lia|]. replace (i - S k)%nat with d by lia. exact Hn.
Qed.

Lemma retained_In (A : Type) (p : MoodProfile) (fs : list (option AudioFeatures))
    (tracks : list A) (t : A) :
  In t (retained p fs tracks) <->
  exists i, nth_error tracks i = Some t /\ profiled p fs i.
Proof.
  unfold retained. rewrite in_map_iff. split.
  - intros ([t' i] & E & H). simpl in E; subst t'.
    apply filter_In in H as [H K]. simpl in K.
    apply in_combine_seq in H as [_ H]. rewrite Nat.sub_0_r in H.
    exists i. split; [exact H | now apply profiledb_profiled].
  - intros (i & H & K). exists (t, i). split; [reflexivity|].
    apply filter_In. split.
    + apply in_combine_seq. rewrite Nat.sub_0_r. split; [lia | exact H].
    + now apply profiledb_profiled.
Qed.

Lemma configured_own (mood : string) :
  In mood configured_moods -> exists p, moodProfiles mood = Own p.
Proof.
  intros [<- | [<- | [<- | [<- | []]]]]; eexists; reflexivity.
Qed.

(** The bounds are part of the interval: features on the lower bounds of
    happy fit the profile, features just below one of them do not. *)
Example happy_bounds_inclusive :
  matches happy (Build_AudioFeatures (6#10) (5#10) (5#10)) = true /\
  matches happy (Build_AudioFeatures 1 1 1) = true /\
  matches happy (Build_AudioFeatures (59#100) (5#10) (5#10)) = false.
Proof. repeat split. Qed.

(** A batch request that threw leaves the list as it was, whatever the
    mood. *)
Lemma filterTracksByMood_fail_open
    (get_audio_features : list string -> option (list (option AudioFeatures)))
    (tracks : list Track.t) (mood : string) :
  get_audio_features (map Track.id tracks) = None ->
  filterTracksByMood get_audio_features tracks mood = tracks.
Proof.
  intros H. unfold filterTracksByMood. rewrite H. now destruct (moodProfiles mood).
Qed.

(** C1, as amended: for every track list and each of the four configured
    moods, when the batch request for the audio features has answered,
    [filterTracksByMood] keeps exactly the tracks, in their order, whose
    position holds a feature triple with valence, energy and danceability
    each inside the closed interval the mood configures for it; a track
    without a triple is dropped. *)
Theorem filterTracksByMood_retains_profiled
    (get_audio_features : list string -> option (list (option AudioFeatures)))
    (tracks : list Track.t) (mood : string) :
  In mood configured_moods ->
  get_audio_features (map Track.id tracks) <> None ->
  exists p fs,
    moodProfiles mood = Own p /\
    get_audio_features (map Track.id tracks) = Some fs /\
    filterTracksByMood get_audio_features tracks mood = retained p fs tracks /\
    forall t,
      In t (filterTracksByMood get_audio_features tracks mood) <->
      exists i f,
        nth_error tracks i = Some t /\
        feature_triple get_audio_features tracks i = Some f /\
        in_profile p f.
Proof.
  intros Hmood Hfs.
  destruct (configured_own Hmood) as [p Hp].
  destruct (get_audio_features (map Track.id tracks)) as [fs|] eqn:E; [|congruence].
  assert (R : filterTracksByMood get_audio_features tracks mood = retained p fs tracks).
  { unfold filterTracksByMood. rewrite Hp, E, filter_from_own. reflexivity. }
  exists p, fs. repeat split; auto.
  - rewrite R. intros H. apply retained_In in H as (i & Hi & f & Hf & Hin).
    exists i, f. unfold feature_triple. rewrite E, Hf. auto.
  - rewrite R. intros (i & f & Hi & Hf & Hin). apply retained_In.
    exists i. split; [exact Hi|]. exists f. split; [|exact Hin].
    unfold feature_triple in Hf. rewrite E in Hf.
    destruct (nth_error fs i) as [[g|]|]; congruence.
Qed.

Lemma filterTracksByMood_retains_profiled_witness :
  In "sad" configured_moods /\
  Sample.audio_features (map Track.id [Sample.lover; Sample.shape]) <> None /\
  filterTracksByMood Sample.audio_features [Sample.lover; Sample.shape] "sad"
  = [Sample.lover].
Proof.
  split; [simpl; tauto|]. split; [discriminate|].
  destruct (@filterTracksByMood_retains_profiled
              Sample.audio_features [Sample.lover; Sample.shape] "sad")
    as (p & fs & Hp & Hfs & Heq & _).
  - simpl; tauto.
  - discriminate.
  - rewrite Heq. inversion Hp; inversion Hfs; subst. reflexivity.
Defined.

(** C1, as stated, fails when the batch request throws: the track has no
    feature triple and [filterTracksByMood] keeps it. *)
Lemma filterTracksByMood_keeps_unprofiled :
  ~ (In Sample.lover
       (filterTracksByMood Sample.no_audio_features [Sample.lover] "happy") <->
     exists i f,
       nth_error [Sample.lover] i = Some Sample.lover /\
       feature_triple Sample.no_audio_features [Sample.lover] i = Some f /\
       in_profile happy f).
Proof.
  intros [H _]. destruct H as (i & f & _ & E & _).
  - simpl. left. reflexivity.
  - discriminate E.
Qed.

End MoodFacts.

(** ** Track aggregator *)

Module AggregatorFacts.

Import Aggregator.

Section Collect.

Variable top_tracks : string -> option (list Track.t).

Lemma push_artist_contribution (allTracks : list Tagged) (a : ArtistSource) :
  push_artist top_tracks allTracks a = allTracks ++ contribution top_tracks a.
Proof.
  unfold push_artist, contribution.
  destruct (top_tracks (id a)) as [[|t tracks]|]; simpl.
  - rewrite firstn_nil, app_nil_r. reflexivity.
  - reflexivity.
  - rewrite app_nil_r. reflexivity.
Qed.

Lemma fold_push_artist (artists : list ArtistSource) (allTracks : list Tagged) :
  fold_left (push_artist top_tracks) artists allTracks =
  allTracks ++ flat_map (contribution top_tracks) artists.
Proof.
  revert allTracks; induction artists as [|a artists IH]; intros allTracks; simpl.
  - rewrite app_nil_r. reflexivity.
  - rewrite IH, push_artist_contribution, <- app_assoc. reflexivity.
Qed.

(** The loop merges the contributions in the order of the sources. *)
Lemma collect_flat_map (artists : list ArtistSource) :
  collect top_tracks artists = flat_map (contribution top_tracks) artists.
Proof. unfold collect. rewrite fold_push_artist. reflexivity. Qed.

Lemma contribution_failed (a : ArtistSource) :
  top_tracks (id a) = None -> contribution top_tracks a = [].
Proof. unfold contribution. now intros ->. Qed.

(** Leaving the failed sources out changes nothing. *)
Lemma flat_map_resolved (artists : list ArtistSource) :
  flat_map (contribution top_tracks) artists =
  flat_map (contribution top_tracks) (List.filter (resolved top_tracks) artists).
Proof.
  induction artists as [|a artists IH]; simpl; [reflexivity|].
  unfold resolved at 1, contribution at 1.
  destruct (top_tracks (id a)) as [tracks|] eqn:E; simpl.
  - unfold contribution at 2. rewrite E, IH. reflexivity.
  - exact IH.
Qed.

Lemma collect_In (artists : list ArtistSource) (x : Tagged) :
  In x (collect top_tracks artists) <->
  exists a tracks t,
    In a artists /\ top_tracks (id a) = Some tracks /\
    In t (firstn (count a) tracks) /\ x = tag a t.
Proof.
  rewrite collect_flat_map, in_flat_map. split.
  - intros (a & Ha & Hx). unfold contribution in Hx.
    destruct (top_tracks (id a)) as [tracks|] eqn:E; [|contradiction].
    apply in_map_iff in Hx as (t & <- & Ht). exists a, tracks, t. auto.
  - intros (a & tracks & t & Ha & E & Ht & ->). exists a. split; [exact Ha|].
    unfold contribution. rewrite E. now apply in_map.
Qed.

End Collect.

Lemma In_firstn (A : Type) (n : nat) (l : list A) (x : A) :
  In x (firstn n l) -> In x l.
Proof.
  intros H. rewrite <- (firstn_skipn n l). apply in_or_app. now left.
Qed.

Lemma hit_language (t : Track.t) (h : Hit) :
  hit t = Some h ->
  exists album, Track.album t = Some album /\
                h_id h = Track.id t /\
                h_language h = language_of album (Track.name t).
Proof.
  unfold hit. destruct (Track.album t) as [album|]; [|discriminate].
  destruct (Track.external_urls t); [|discriminate].
  intros H; inversion H; subst; simpl. exists album. auto.
Qed.

(** A name with a Devanagari letter is hindi, one with a Gurmukhi letter is
    punjabi, and outside the market [IN] every name is english. *)
Example language_of_scripts :
  language_of Sample.in_india [2325%N; 2354%N] = "hindi" /\
  language_of Sample.in_india [2602%N; 2672%N] = "punjabi" /\
  language_of (Album.mk "al3" [] [] (Some ["US"])) [2325%N; 2354%N] = "english".
Proof. repeat split. Qed.

Lemma tracks_of_In (items : list Item) (t : Track.t) :
  In t (tracks_of items) <-> In (Build_Item (Some t)) items.
Proof.
  unfold tracks_of. rewrite in_flat_map. split.
  - intros ([[t'|]] & Hi & Ht); simpl in Ht; [|contradiction].
    destruct Ht as [<- | []]. exact Hi.
  - intros H. exists (Build_Item (Some t)). split; [exact H | simpl; auto].
Qed.

(** C2, as amended: on [/api/mixed] and [/api/mixed1] a source whose
    request fails contributes no track and does not abort the batch: the
    answer is 200 with the random arrangement of the tagged tracks of the
    sources that resolved ([/api/mixed1] sends its first 50).  On
    [/api/mixed-hits] one failed request makes the endpoint answer 500. *)
Theorem failed_artist_contributes_nothing
    (shuffle : forall A : Type, list A -> list A)
    (top_tracks : string -> option (list Track.t))
    (playlist_tracks : string -> nat -> option (list Item)) :
  (forall (A : Type) (l : list A), Permutation l (shuffle A l)) ->
  (forall a, top_tracks (id a) = None -> contribution top_tracks a = []) /\
  (exists songs,
     mixed shuffle top_tracks = Http.Json 200 songs /\
     Permutation songs
       (map song (flat_map (contribution top_tracks)
                    (List.filter (resolved top_tracks) mixed_artists)))) /\
  (exists songs,
     mixed1 shuffle top_tracks = Http.Json 200 (firstn 50 songs) /\
     Permutation songs
       (map song (flat_map (contribution top_tracks)
                    (List.filter (resolved top_tracks) mixed1_artists)))) /\
  (playlist_tracks (l_id english) (l_limit english) = None \/
   playlist_tracks (l_id punjabi) (l_limit punjabi) = None \/
   playlist_tracks (l_id hindi) (l_limit hindi) = None ->
   mixed_hits shuffle playlist_tracks = Http.Failure 500 "Failed to fetch songs").
Proof.
  intros Hperm. split; [apply contribution_failed|]. split; [|split].
  - eexists. split; [reflexivity|].
    rewrite <- flat_map_resolved, <- collect_flat_map.
    apply Permutation_sym, Hperm.
  - eexists. split; [reflexivity|].
    rewrite <- flat_map_resolved, <- collect_flat_map.
    apply Permutation_sym, Hperm.
  - unfold mixed_hits. intros [H | [H | H]]; rewrite H.
    + reflexivity.
    + now destruct (playlist_tracks (l_id english) (l_limit english)).
    + destruct (playlist_tracks (l_id english) (l_limit english)); [|reflexivity].
      now destruct (playlist_tracks (l_id punjabi) (l_limit punjabi)).
Qed.

Lemma failed_artist_contributes_nothing_witness :
  (forall (A : Type) (l : list A), Permutation l (Sample.keep_order l)) /\
  (exists songs,
     mixed Sample.keep_order Sample.only_ed_sheeran = Http.Json 200 songs /\
     Permutation songs
       (map song (flat_map (contribution Sample.only_ed_sheeran)
                    (List.filter (resolved Sample.only_ed_sheeran) mixed_artists)))) /\
  mixed_hits Sample.keep_order Sample.lists_english_down
  = Http.Failure 500 "Failed to fetch songs".
Proof.
  destruct (@failed_artist_contributes_nothing Sample.keep_order Sample.only_ed_sheeran
              Sample.lists_english_down (fun A l => Permutation_refl l))
    as (_ & Hmixed & _ & Hhits).
  split; [intros A l; apply Permutation_refl|].
  split; [exact Hmixed|].
  apply Hhits. left. reflexivity.
Defined.

(** C2, as stated, fails on [/api/mixed-hits]: the english list fails to
    resolve, the punjabi list holds a track, and the endpoint answers 500
    instead of sending that track. *)
Lemma mixed_hits_aborts_on_one_failure :
  Sample.lists_english_down (l_id english) (l_limit english) = None /\
  Sample.lists_english_down (l_id punjabi) (l_limit punjabi)
  = Some [Build_Item (Some Sample.lover)] /\
  Sample.lists_english_down (l_id hindi) (l_limit hindi) = Some [] /\
  mixed_hits Sample.keep_order Sample.lists_english_down
  = Http.Failure 500 "Failed to fetch songs".
Proof. repeat split. Qed.

Section Tags.

Variable shuffle : forall A : Type, list A -> list A.
Hypothesis shuffle_permutes : forall (A : Type) (l : list A), Permutation l (shuffle l).
Variable top_tracks : string -> option (list Track.t).

(** Every song of the arrangement of [map song (collect artists)] is a
    track of one source, tagged with that source. *)
Lemma shuffled_song_source (artists : list ArtistSource) (s : Song) :
  In s (shuffle (map song (collect top_tracks artists))) ->
  exists a tracks t,
    In a artists /\ top_tracks (id a) = Some tracks /\
    In t (firstn (count a) tracks) /\
    s = song (tag a t) /\
    s_language s = language a /\ primary_artist s = name a.
Proof.
  intros H.
  apply (Permutation_in _ (Permutation_sym (shuffle_permutes _))) in H.
  apply in_map_iff in H as (x & <- & Hx).
  apply collect_In in Hx as (a & tracks & t & Ha & E & Ht & ->).
  exists a, tracks, t. repeat split; auto.
Qed.

End Tags.

(** C3, as amended: on [/api/mixed] and [/api/mixed1] every track sent is
    one of the first [count] tracks of one of the configured sources and
    carries the name and language configured on that source.  On
    [/api/mixed-hits] the language of a track sent is computed from the
    track (its album's markets and the script of its name). *)
Theorem mixed_songs_carry_source_tag
    (shuffle : forall A : Type, list A -> list A)
    (top_tracks : string -> option (list Track.t))
    (playlist_tracks : string -> nat -> option (list Item)) :
  (forall (A : Type) (l : list A), Permutation l (shuffle A l)) ->
  (forall songs s,
     mixed shuffle top_tracks = Http.Json 200 songs -> In s songs ->
     exists a tracks t,
       In a mixed_artists /\ top_tracks (id a) = Some tracks /\
       In t (firstn (count a) tracks) /\
       s = song (tag a t) /\
       s_language s = language a /\ primary_artist s = name a) /\
  (forall songs s,
     mixed1 shuffle top_tracks = Http.Json 200 songs -> In s songs ->
     exists a tracks t,
       In a mixed1_artists /\ top_tracks (id a) = Some tracks /\
       In t (firstn (count a) tracks) /\
       s = song (tag a t) /\
       s_language s = language a /\ primary_artist s = name a) /\
  (forall hits h,
     mixed_hits shuffle playlist_tracks = Http.Json 200 hits -> In h hits ->
     exists source items t album,
       In source [english; punjabi; hindi] /\
       playlist_tracks (l_id source) (l_limit source) = Some items /\
       In (Build_Item (Some t)) items /\
       Track.album t = Some album /\
       h_id h = Track.id t /\
       h_language h = language_of album (Track.name t)).
Proof.
  intros Hperm. split; [|split].
  - intros songs s E Hs. unfold mixed in E. inversion E; subst.
    now apply (@shuffled_song_source shuffle Hperm).
  - intros songs s E Hs. unfold mixed1 in E. inversion E; subst.
    apply (@shuffled_song_source shuffle Hperm). eapply In_firstn; eauto.
  - intros hits h E Hh. unfold mixed_hits in E.
    destruct (playlist_tracks (l_id english) (l_limit english)) as [e|] eqn:Ee;
      [|discriminate].
    destruct (playlist_tracks (l_id punjabi) (l_limit punjabi)) as [p|] eqn:Ep;
      [|discriminate].
    destruct (playlist_tracks (l_id hindi) (l_limit hindi)) as [hi|] eqn:Eh;
      [|discriminate].
    destruct (JS.map_throwing hit _) as [songs|] eqn:Em; [|discriminate].
    inversion E; subst. apply In_firstn in Hh.
    destruct (JSFacts.map_throwing_In _ _ _ Em Hh) as (t & Ht & Hhit).
    apply (Permutation_in _ (Permutation_sym (Hperm _ _))) in Ht.
    apply tracks_of_In in Ht.
    destruct (hit_language _ Hhit) as (album & Ha & Hid & Hl).
    rewrite !in_app_iff in Ht. destruct Ht as [Ht | [Ht | Ht]].
    + exists english, e, t, album. simpl. auto 10.
    + exists punjabi, p, t, album. simpl. auto 10.
    + exists hindi, hi, t, album. simpl. auto 10.
Qed.

Lemma mixed_songs_carry_source_tag_witness :
  (forall (A : Type) (l : list A), Permutation l (Sample.keep_order l)) /\
  (exists a,
     In a mixed_artists /\
     forall s songs,
       mixed Sample.keep_order Sample.only_ed_sheeran = Http.Json 200 songs ->
       In s songs -> s_language s = "english").
Proof.
  split; [intros A l; apply Permutation_refl|].
  exists (artist "6eUKZXaKkcviH0Ku9w2n3V" "Ed Sheeran" 4 "english").
  split; [simpl; auto|].
  intros s songs E Hs.
  destruct (@mixed_songs_carry_source_tag Sample.keep_order Sample.only_ed_sheeran
              Sample.lists_punjabi_only (fun A l => Permutation_refl l))
    as (Hmixed & _ & _).
  destruct (Hmixed songs s E Hs) as (a & tracks & t & Ha & Ea & _ & _ & -> & _).
  simpl in Ha.
  destruct Ha as [<- | [<- | [<- | [<- | [<- | []]]]]];
    first [reflexivity | discriminate Ea].
Defined.

(** C3, as stated, fails on [/api/mixed-hits]: the one track sent comes
    from the punjabi list and carries the language english. *)
Lemma mixed_hits_language_not_of_source :
  Sample.lists_punjabi_only (l_id english) (l_limit english) = Some [] /\
  Sample.lists_punjabi_only (l_id punjabi) (l_limit punjabi)
  = Some [Build_Item (Some Sample.lover)] /\
  Sample.lists_punjabi_only (l_id hindi) (l_limit hindi) = Some [] /\
  l_label punjabi = "punjabi" /\
  exists h,
    mixed_hits Sample.keep_order Sample.lists_punjabi_only = Http.Json 200 [h] /\
    h_id h = Track.id Sample.lover /\
    h_language h = "english".
Proof.
  repeat split. eexists. repeat split.
Qed.

End AggregatorFacts.

(** ** The playlist schema *)

Module playlistSchemaFacts.

Import playlistSchema.

Lemma includes_In (songs : list string) (songId : string) :
  includes songs songId = true <-> In songId songs.
Proof.
  unfold includes. rewrite existsb_exists. split.
  - intros (x & Hx & E). apply String.eqb_eq in E. now subst.
  - intros H. exists songId. split; [exact H | apply String.eqb_refl].
Qed.

Lemma includes_not_In (songs : list string) (songId : string) :
  includes songs songId = false <-> ~ In songId songs.
Proof.
  rewrite <- includes_In. destruct (includes songs songId); split; congruence.
Qed.

Lemma others_In (songs : list string) (songId id : string) :
  In id (List.filter (fun id => negb (String.eqb id songId)) songs) <->
  In id songs /\ id <> songId.
Proof.
  rewrite filter_In, negb_true_iff, String.eqb_neq. reflexivity.
Qed.

Lemma others_absent (songs : list string) (songId : string) :
  ~ In songId songs ->
  List.filter (fun id => negb (String.eqb id songId)) songs = songs.
Proof.
  induction songs as [|id songs IH]; simpl; intros H; [reflexivity|].
  destruct (String.eqb_spec id songId) as [E | E]; simpl.
  - exfalso. apply H. now left.
  - f_equal. apply IH. intros K. apply H. now right.
Qed.

Lemma set_songs_same (p : Playlist.doc) : Playlist.set_songs (Playlist.songs p) p = p.
Proof. now destruct p. Qed.

(** C4, as amended: for every playlist, [removeSong] removes all the
    references equal to [songId], keeps the others in their order, sets
    the update timestamp to the time of the save and stores the
    document; when the song is not in the playlist the call succeeds and
    leaves every field but the update timestamp as it was. *)
Theorem removeSong_removes_all (now : N) (songId : string) (this : Playlist.doc)
    (db : Db.t) :
  let this' := fst (removeSong now songId this db) in
  let db' := snd (removeSong now songId this db) in
  Playlist.songs this'
  = List.filter (fun id => negb (String.eqb id songId)) (Playlist.songs this) /\
  ~ In songId (Playlist.songs this') /\
  (forall id, id <> songId -> (In id (Playlist.songs this') <-> In id (Playlist.songs this))) /\
  Playlist.updatedAt this' = now /\
  this' = Playlist.set_updatedAt now (Playlist.set_songs (Playlist.songs this') this) /\
  db' = Db.write_playlist this' db /\
  Db.playlists db' !! Playlist._id this = Some this' /\
  (~ In songId (Playlist.songs this) -> this' = Playlist.set_updatedAt now this).
Proof.
  simpl.
  split; [reflexivity|].
  split; [intros H; apply others_In in H; tauto|].
  split; [intros id Hid; rewrite others_In; tauto|].
  split; [reflexivity|].
  split; [reflexivity|].
  split; [reflexivity|].
  split; [apply lookup_insert_eq|].
  intros H. rewrite (others_absent _ _ H), set_songs_same. reflexivity.
Qed.

Lemma removeSong_removes_all_witness :
  ~ In Sample.absent_id (Playlist.songs Sample.chill) /\
  fst (removeSong 10 Sample.absent_id Sample.chill Sample.db)
  = Playlist.set_updatedAt 10 Sample.chill.
Proof.
  assert (H : ~ In Sample.absent_id (Playlist.songs Sample.chill)).
  { simpl. intros [E | [E | []]]; discriminate E. }
  split; [exact H|].
  destruct (removeSong_removes_all 10 Sample.absent_id Sample.chill Sample.db)
    as (_ & _ & _ & _ & _ & _ & _ & K).
  exact (K H).
Defined.

(** C4, as stated, fails: removing a song the playlist does not hold
    changes the playlist, in memory and in the store, since the save
    moves its update timestamp from 5 to 10. *)
Lemma removeSong_absent_changes_playlist :
  ~ In Sample.absent_id (Playlist.songs Sample.chill) /\
  fst (removeSong 10 Sample.absent_id Sample.chill Sample.db) <> Sample.chill /\
  Db.playlists (snd (removeSong 10 Sample.absent_id Sample.chill Sample.db))
    !! Sample.chill_id <> Db.playlists Sample.db !! Sample.chill_id.
Proof.
  split; [|split].
  - simpl. intros [E | [E | []]]; discriminate E.
  - intros E. apply (f_equal Playlist.updatedAt) in E. discriminate E.
  - vm_compute. intros E. discriminate E.
Qed.

Lemma addSong_present (now : N) (songId : string) (this : Playlist.doc) (db : Db.t) :
  In songId (Playlist.songs this) -> addSong now songId this db = (this, db).
Proof.
  intros H. unfold addSong. apply includes_In in H. rewrite H. reflexivity.
Qed.

Lemma addSong_absent (now : N) (songId : string) (this : Playlist.doc) (db : Db.t) :
  ~ In songId (Playlist.songs this) ->
  addSong now songId this db
  = save now (Playlist.set_songs (Playlist.songs this ++ [songId]) this) db.
Proof.
  intros H. unfold addSong. apply includes_not_In in H. rewrite H. reflexivity.
Qed.

(** After [addSong] the playlist holds the song. *)
Lemma addSong_In (now : N) (songId : string) (this : Playlist.doc) (db : Db.t) :
  In songId (Playlist.songs (fst (addSong now songId this db))).
Proof.
  destruct (in_dec string_dec songId (Playlist.songs this)) as [H | H].
  - rewrite addSong_present by exact H. exact H.
  - rewrite addSong_absent by exact H. simpl. apply in_or_app. right. now left.
Qed.

Lemma NoDup_push (A : Type) (l : list A) (x : A) :
  List.NoDup l -> ~ In x l -> List.NoDup (l ++ [x]).
Proof.
  induction 1 as [|y l Hy Hl IH]; simpl; intros Hx.
  - constructor; [intros [] | constructor].
  - constructor.
    + rewrite in_app_iff. simpl. intros [K | [K | []]]; [tauto|]. subst. tauto.
    + apply IH. tauto.
Qed.

(** *** No song twice: an invariant of the methods *)

Lemma addSong_NoDup (now : N) (songId : string) (this : Playlist.doc) (db : Db.t) :
  List.NoDup (Playlist.songs this) ->
  List.NoDup (Playlist.songs (fst (addSong now songId this db))).
Proof.
  intros Hnd. destruct (in_dec string_dec songId (Playlist.songs this)) as [H | H].
  - rewrite addSong_present by exact H. exact Hnd.
  - rewrite addSong_absent by exact H. simpl. now apply NoDup_push.
Qed.

Lemma removeSong_NoDup (now : N) (songId : string) (this : Playlist.doc) (db : Db.t) :
  List.NoDup (Playlist.songs this) ->
  List.NoDup (Playlist.songs (fst (removeSong now songId this db))).
Proof. intros Hnd. simpl. now apply List.NoDup_filter. Qed.

Lemma syncWithSpotify_songs (now : N) (d : SpotifyData) (this : Playlist.doc) (db : Db.t) :
  Playlist.songs (fst (syncWithSpotify now d this db)) = Playlist.songs this.
Proof. reflexivity. Qed.

Lemma new_Playlist_NoDup (env : Routes.Env) (name : jsstring)
    (description : option jsstring) (userId : string) :
  List.NoDup (Playlist.songs (Routes.new_Playlist env name description userId)).
Proof. simpl. constructor. Qed.

(** No playlist made by the routes holds a song twice. *)
Lemma made_NoDup (p : Playlist.doc) : Routes.made p -> List.NoDup (Playlist.songs p).
Proof.
  induction 1 as [env name description userId | now this db _ IH
                 | now songId this db _ IH | now songId this db _ IH
                 | now d this db _ IH].
  - apply new_Playlist_NoDup.
  - exact IH.
  - now apply addSong_NoDup.
  - now apply removeSong_NoDup.
  - exact IH.
Qed.

(** C6: [addSong] leaves the playlist and the store as they are when the
    playlist already holds the reference; otherwise it appends the
    reference, sets the update timestamp to the time of the save and
    stores the document.  Hence a second [addSong] of the same song
    changes nothing, and a playlist that held no song twice holds the
    song exactly once after the two calls. *)
Theorem addSong_twice_one_reference (now now' : N) (songId : string)
    (this : Playlist.doc) (db : Db.t) :
  let once := addSong now songId this db in
  let twice := addSong now' songId (fst once) (snd once) in
  (In songId (Playlist.songs this) -> once = (this, db)) /\
  (~ In songId (Playlist.songs this) ->
   Playlist.songs (fst once) = Playlist.songs this ++ [songId] /\
   Playlist.updatedAt (fst once) = now /\
   fst once
   = Playlist.set_updatedAt now
       (Playlist.set_songs (Playlist.songs this ++ [songId]) this) /\
   snd once = Db.write_playlist (fst once) db /\
   Db.playlists (snd once) !! Playlist._id this = Some (fst once)) /\
  twice = once /\
  (List.NoDup (Playlist.songs this) ->
   count_occ string_dec (Playlist.songs (fst twice)) songId = 1%nat).
Proof.
  intros once twice.
  assert (Htwice : twice = once).
  { subst twice. rewrite addSong_present; [now destruct once|].
    subst once. apply addSong_In. }
  split; [apply addSong_present|].
  split.
  { intros H. subst once. rewrite addSong_absent by exact H. simpl.
    repeat split. apply lookup_insert_eq. }
  split; [exact Htwice|].
  intros Hnd. rewrite Htwice. subst once.
  apply NoDup_count_occ'; [now apply addSong_NoDup | apply addSong_In].
Qed.

Lemma addSong_twice_one_reference_witness :
  List.NoDup (Playlist.songs Sample.chill) /\
  ~ In Sample.absent_id (Playlist.songs Sample.chill) /\
  count_occ string_dec
    (Playlist.songs
       (fst (addSong 11 Sample.absent_id
               (fst (addSong 10 Sample.absent_id Sample.chill Sample.db))
               (snd (addSong 10 Sample.absent_id Sample.chill Sample.db)))))
    Sample.absent_id = 1%nat.
Proof.
  assert (Hnd : List.NoDup (Playlist.songs Sample.chill)).
  { simpl. constructor.
    - simpl. intros [E | []]. discriminate E.
    - constructor; [simpl; tauto | constructor]. }
  split; [exact Hnd|]. split.
  - simpl. intros [E | [E | []]]; discriminate E.
  - destruct (addSong_twice_one_reference 10 11 Sample.absent_id Sample.chill Sample.db)
      as (_ & _ & _ & H).
    exact (H Hnd).
Defined.

(** C9, as amended: [syncWithSpotify] overwrites the name, the
    description, the external id and the cover image of the playlist only
    when the catalog description carries the field, and then with the
    catalog's value; a field the description does not carry keeps its
    value.  Of the other fields the owner, the songs, the [_id] and the
    creation timestamp are never modified; the update timestamp is set to
    the time of the save, with which the document is stored. *)
Theorem syncWithSpotify_merges (now : N) (d : SpotifyData) (this : Playlist.doc)
    (db : Db.t) :
  let this' := fst (syncWithSpotify now d this db) in
  let db' := snd (syncWithSpotify now d this db) in
  (Playlist.name this' <> Playlist.name this -> name d = Some (Playlist.name this')) /\
  (Playlist.description this' <> Playlist.description this ->
   description d <> None /\ description d = Playlist.description this') /\
  (Playlist.spotifyId this' <> Playlist.spotifyId this ->
   id d <> None /\ id d = Playlist.spotifyId this') /\
  (Playlist.image this' <> Playlist.image this ->
   exists first rest,
     images d = Some (first :: rest) /\
     Playlist.image this'
     = Image.mk (Image.url first) (Image.height first) (Image.width first)) /\
  (name d = None -> Playlist.name this' = Playlist.name this) /\
  (description d = None -> Playlist.description this' = Playlist.description this) /\
  (id d = None -> Playlist.spotifyId this' = Playlist.spotifyId this) /\
  (images d = None -> Playlist.image this' = Playlist.image this) /\
  Playlist._id this' = Playlist._id this /\
  Playlist.user this' = Playlist.user this /\
  Playlist.songs this' = Playlist.songs this /\
  Playlist.createdAt this' = Playlist.createdAt this /\
  Playlist.updatedAt this' = now /\
  db' = Db.write_playlist this' db /\
  Db.playlists db' !! Playlist._id this = Some this'.
Proof.
  simpl.
  split. { destruct (name d) as [[|c s]|]; simpl; congruence. }
  split. { destruct (description d) as [[|c s]|]; simpl; intros H;
           first [congruence | split; [discriminate | reflexivity]]. }
  split. { destruct (id d) as [[|c s]|]; simpl; intros H;
           first [congruence | split; [discriminate | reflexivity]]. }
  split. { destruct (images d) as [[|first rest]|]; simpl; intros H;
           first [congruence | exists first, rest; auto]. }
  split. { intros ->. reflexivity. }
  split. { intros ->. reflexivity. }
  split. { intros ->. reflexivity. }
  split. { intros ->. reflexivity. }
  repeat (split; [reflexivity|]).
  apply lookup_insert_eq.
Qed.

Lemma syncWithSpotify_merges_witness :
  description Sample.renamed = None /\
  Playlist.description (fst (syncWithSpotify 10 Sample.renamed Sample.chill Sample.db))
  = Playlist.description Sample.chill.
Proof.
  split; [reflexivity|].
  destruct (syncWithSpotify_merges 10 Sample.renamed Sample.chill Sample.db)
    as (_ & _ & _ & _ & _ & H & _).
  apply H. reflexivity.
Defined.

(** C9, as stated, fails: the update timestamp is none of name,
    description, external id and image, and a sync that carries nothing
    moves it from 5 to 10. *)
Lemma syncWithSpotify_touches_updatedAt :
  Playlist.updatedAt (fst (syncWithSpotify 10 Sample.no_data Sample.chill Sample.db))
  <> Playlist.updatedAt Sample.chill.
Proof. simpl. discriminate. Qed.

End playlistSchemaFacts.

(** ** The playlist routes *)

Module RoutesFacts.

Import Routes.

Lemma populate_songs_write_playlist (p : Playlist.doc) (db : Db.t) (refs : list string) :
  Db.populate_songs (Db.write_playlist p db) refs = Db.populate_songs db refs.
Proof. reflexivity. Qed.

(** *** Ownership *)

Section NotOwner.

Variables (env : Env) (userId playlistId : string) (playlist : Playlist.doc) (db : Db.t).
Hypothesis found : Db.playlists db !! playlistId = Some playlist.
Hypothesis not_owner : Playlist.user playlist <> userId.

Lemma owner_test : negb (String.eqb (Playlist.user playlist) userId) = true.
Proof. apply negb_true_iff, String.eqb_neq, not_owner. Qed.

Lemma delete_forbidden (songId : string) :
  delete_playlist_song env userId playlistId songId db
  = (Http.Failure 403 "Unauthorized: Not your playlist", db).
Proof. unfold delete_playlist_song. rewrite found, owner_test. reflexivity. Qed.

Lemma play_forbidden :
  get_playlist_play userId playlistId db
  = (Http.Failure 403 "Unauthorized: Not your playlist", db).
Proof. unfold get_playlist_play. rewrite found, owner_test. reflexivity. Qed.

Lemma post_song_forbidden (spotifyId : option string) :
  JS.truthy_id spotifyId = true ->
  post_playlist_songs env userId playlistId spotifyId db
  = (Http.Failure 403 "Unauthorized: Not your playlist", db).
Proof.
  destruct spotifyId as [[|c s]|]; try discriminate. intros _.
  unfold post_playlist_songs. rewrite found, owner_test. reflexivity.
Qed.

End NotOwner.

Lemma post_song_id_required (env : Env) (userId playlistId : string)
    (spotifyId : option string) (db : Db.t) :
  JS.truthy_id spotifyId = false ->
  post_playlist_songs env userId playlistId spotifyId db
  = (Http.Failure 400 "Spotify track ID is required", db).
Proof. destruct spotifyId as [[|c s]|]; try discriminate; reflexivity. Qed.

(** C10, as amended: adding a song, removing a song and the play
    retrieval check that the caller owns the playlist before they change
    anything.  A request on a stored playlist whose owner is not the
    caller leaves the store as it is and fails: with Forbidden (403) for
    removing a song, for play, and for adding a song when the request
    names a track; an add request that names no track is refused as a bad
    request (400) before the playlist is looked up. *)
Theorem not_owner_forbidden (env : Env) (userId playlistId : string)
    (playlist : Playlist.doc) (db : Db.t) :
  Db.playlists db !! playlistId = Some playlist ->
  Playlist.user playlist <> userId ->
  (forall songId,
     delete_playlist_song env userId playlistId songId db
     = (Http.Failure 403 "Unauthorized: Not your playlist", db)) /\
  get_playlist_play userId playlistId db
  = (Http.Failure 403 "Unauthorized: Not your playlist", db) /\
  (forall spotifyId,
     JS.truthy_id spotifyId = true ->
     post_playlist_songs env userId playlistId spotifyId db
     = (Http.Failure 403 "Unauthorized: Not your playlist", db)) /\
  (forall spotifyId,
     JS.truthy_id spotifyId = false ->
     post_playlist_songs env userId playlistId spotifyId db
     = (Http.Failure 400 "Spotify track ID is required", db)).
Proof.
  intros Hfound Hnot. split; [|split; [|split]].
  - intros songId. now apply delete_forbidden with (playlist := playlist).
  - now apply play_forbidden with (playlist := playlist).
  - intros spotifyId. now apply post_song_forbidden with (playlist := playlist).
  - intros spotifyId. apply post_song_id_required.
Qed.

Lemma not_owner_forbidden_witness :
  Db.playlists Sample.db !! Sample.chill_id = Some Sample.chill /\
  Playlist.user Sample.chill <> Sample.mallory_id /\
  delete_playlist_song Sample.env Sample.mallory_id Sample.chill_id Sample.song1_id
    Sample.db
  = (Http.Failure 403 "Unauthorized: Not your playlist", Sample.db) /\
  post_playlist_songs Sample.env Sample.mallory_id Sample.chill_id (Some "t1") Sample.db
  = (Http.Failure 403 "Unauthorized: Not your playlist", Sample.db).
Proof.
  assert (Hfound : Db.playlists Sample.db !! Sample.chill_id = Some Sample.chill)
    by reflexivity.
  assert (Hnot : Playlist.user Sample.chill <> Sample.mallory_id)
    by (simpl; discriminate).
  destruct (not_owner_forbidden Sample.env Sample.chill_id Sample.db Hfound Hnot)
    as (Hdelete & _ & Hpost & _).
  split; [exact Hfound|]. split; [exact Hnot|].
  split; [apply Hdelete | apply Hpost; reflexivity].
Defined.

(** C10, as stated, fails: mallory asks to add a song to alice's
    playlist without naming a track, and the answer is 400, not
    Forbidden. *)
Lemma post_song_not_owner_bad_request :
  Db.playlists Sample.db !! Sample.chill_id = Some Sample.chill /\
  Playlist.user Sample.chill <> Sample.mallory_id /\
  post_playlist_songs Sample.env Sample.mallory_id Sample.chill_id None Sample.db
  = (Http.Failure 400 "Spotify track ID is required", Sample.db) /\
  Http.status
    (fst (post_playlist_songs Sample.env Sample.mallory_id Sample.chill_id None
            Sample.db)) <> 403%nat.
Proof.
  split; [reflexivity|]. split; [simpl; discriminate|].
  split; [reflexivity|]. simpl. discriminate.
Qed.

(** *** Removing a song *)

(** With a song left in the playlist the response of the [DELETE]
    handler cannot be built: the handler answers 500 after the removal
    was saved. *)
Lemma delete_song_left_500 (env : Env) (userId playlistId songId : string)
    (playlist : Playlist.doc) (db : Db.t) :
  Db.playlists db !! playlistId = Some playlist ->
  Playlist.user playlist = userId ->
  Db.populate_songs db
    (List.filter (fun id => negb (String.eqb id songId)) (Playlist.songs playlist)) <> [] ->
  delete_playlist_song env userId playlistId songId db
  = (Http.Failure 500 "Failed to remove song from playlist",
     snd (playlistSchema.removeSong (now env) songId playlist db)).
Proof.
  intros Hfound Howner Hleft. unfold delete_playlist_song.
  rewrite Hfound. apply String.eqb_eq in Howner. rewrite Howner. simpl.
  rewrite populate_songs_write_playlist.
  destruct (Db.populate_songs db _) as [|song songs]; [congruence | reflexivity].
Qed.

(** With no song left the handler answers 200. *)
Lemma delete_song_none_left_200 (env : Env) (userId playlistId songId : string)
    (playlist : Playlist.doc) (db : Db.t) :
  Db.playlists db !! playlistId = Some playlist ->
  Playlist.user playlist = userId ->
  Db.populate_songs db
    (List.filter (fun id => negb (String.eqb id songId)) (Playlist.songs playlist)) = [] ->
  delete_playlist_song env userId playlistId songId db
  = (Http.Json 200
       (playlist_json (fst (playlistSchema.removeSong (now env) songId playlist db)) []),
     snd (playlistSchema.removeSong (now env) songId playlist db)).
Proof.
  intros Hfound Howner Hleft. unfold delete_playlist_song.
  rewrite Hfound. apply String.eqb_eq in Howner. rewrite Howner. simpl.
  rewrite populate_songs_write_playlist, Hleft. reflexivity.
Qed.

(** C5 fails on the code: alice removes the first of the two songs of her
    playlist; the handler stores the playlist without the song and then
    answers 500. *)
Theorem delete_song_stored_then_500 :
  Db.playlists Sample.db !! Sample.chill_id = Some Sample.chill /\
  Playlist.user Sample.chill = Sample.alice_id /\
  fst (delete_playlist_song Sample.env Sample.alice_id Sample.chill_id Sample.song1_id
         Sample.db)
  = Http.Failure 500 "Failed to remove song from playlist" /\
  Http.is_error
    (fst (delete_playlist_song Sample.env Sample.alice_id Sample.chill_id Sample.song1_id
            Sample.db)) = true /\
  Db.playlists
    (snd (delete_playlist_song Sample.env Sample.alice_id Sample.chill_id
            Sample.song1_id Sample.db)) !! Sample.chill_id
  = Some (Playlist.set_updatedAt 10 (Playlist.set_songs [Sample.song2_id] Sample.chill)) /\
  snd (delete_playlist_song Sample.env Sample.alice_id Sample.chill_id Sample.song1_id
         Sample.db) <> Sample.db.
Proof.
  assert (Hfound : Db.playlists Sample.db !! Sample.chill_id = Some Sample.chill)
    by reflexivity.
  assert (Howner : Playlist.user Sample.chill = Sample.alice_id) by reflexivity.
  split; [exact Hfound|]. split; [exact Howner|].
  rewrite (@delete_song_left_500 Sample.env Sample.alice_id Sample.chill_id
             Sample.song1_id Sample.chill Sample.db Hfound Howner)
    by (vm_compute; discriminate).
  split; [reflexivity|]. split; [reflexivity|]. split; [reflexivity|].
  intros E. apply (f_equal (fun d => Db.playlists d !! Sample.chill_id)) in E.
  vm_compute in E. discriminate E.
Qed.

(** *** Names that differ by case only *)

Lemma populate_playlists_In (db : Db.t) (refs : list string) (p : Playlist.doc) :
  In p (Db.populate_playlists db refs) <->
  exists id, In id refs /\ Db.playlists db !! id = Some p.
Proof.
  unfold Db.populate_playlists.
  rewrite <- list_elem_of_In, list_elem_of_omap.
  split; intros (id & H & E); exists id; split; auto; now apply list_elem_of_In.
Qed.

Section Names.

Variable toLowerCase : jsstring -> jsstring.

Local Abbreviation lower := (name_lower toLowerCase).

Lemma unique_by_name_sublist (seen : gset (list N)) (l : list Playlist.doc) :
  sublist (unique_by_name toLowerCase seen l) l.
Proof.
  revert seen; induction l as [|p l IH]; intros seen; simpl.
  - constructor.
  - case_bool_decide.
    + apply sublist_cons, IH.
    + apply sublist_skip, IH.
Qed.

Lemma unique_by_name_unseen (seen : gset (list N)) (l : list Playlist.doc)
    (q : Playlist.doc) :
  In q (unique_by_name toLowerCase seen l) -> lower q ∉ seen.
Proof.
  revert seen; induction l as [|p l IH]; intros seen; simpl; [tauto|].
  case_bool_decide as Hseen.
  - apply IH.
  - intros [<- | H]; [exact Hseen|].
    apply IH in H. set_solver.
Qed.

(** A playlist that is kept is the first of its name. *)
Lemma unique_by_name_first (seen : gset (list N)) (l : list Playlist.doc)
    (q : Playlist.doc) :
  In q (unique_by_name toLowerCase seen l) ->
  exists before after,
    l = before ++ q :: after /\
    forall p, In p before -> lower p <> lower q.
Proof.
  revert seen; induction l as [|p l IH]; intros seen; simpl; [tauto|].
  case_bool_decide as Hseen.
  - intros H. pose proof H as Hq; apply unique_by_name_unseen in Hq.
    apply IH in H as (before & after & -> & Hb).
    exists (p :: before), after. split; [reflexivity|].
    intros p' [<- | Hp']; [|now apply Hb].
    intros E. apply Hq. now rewrite <- E.
  - intros [<- | H].
    + exists [], l. split; [reflexivity | intros p' []].
    + pose proof H as Hq; apply unique_by_name_unseen in Hq.
      apply IH in H as (before & after & -> & Hb).
      exists (p :: before), after. split; [reflexivity|].
      intros p' [<- | Hp']; [|now apply Hb].
      intros E. apply Hq. rewrite <- E. set_solver.
Qed.

(** No two playlists kept have the same name up to case. *)
Lemma unique_by_name_NoDup (seen : gset (list N)) (l : list Playlist.doc) :
  List.NoDup (map lower (unique_by_name toLowerCase seen l)).
Proof.
  revert seen; induction l as [|p l IH]; intros seen; simpl; [constructor|].
  case_bool_decide as Hseen; [apply IH|].
  simpl. constructor; [|apply IH].
  intros H. apply in_map_iff in H as (q & E & Hq).
  apply unique_by_name_unseen in Hq. apply Hq. rewrite E. set_solver.
Qed.

(** Every name met is a name seen before or the name of a playlist
    kept. *)
Lemma unique_by_name_covers (seen : gset (list N)) (l : list Playlist.doc)
    (p : Playlist.doc) :
  In p l ->
  lower p ∈ seen \/
  exists q, In q (unique_by_name toLowerCase seen l) /\ lower q = lower p.
Proof.
  revert seen; induction l as [|p' l IH]; intros seen; simpl; [tauto|].
  intros [-> | H].
  - case_bool_decide as Hseen; [now left|].
    right. exists p. split; [now left | reflexivity].
  - case_bool_decide as Hseen; [now apply IH|].
    apply (IH ({[ toLowerCase (Playlist.name p') ]} ∪ seen)) in H as [Hin | (q & Hq & E)].
    + apply elem_of_union in Hin as [Hin | Hin]; [|now left].
      apply elem_of_singleton in Hin. right. exists p'.
      split; [now left | now symmetry].
    + right. exists q. split; [now right | exact E].
Qed.

(** C8: for an owner the store knows, [GET /api/playlists] sends the
    playlists the owner's references resolve to, one per name up to
    case: the playlists sent are in the order of the stored references,
    no two of them have the same lower-cased name, every referenced
    playlist has its name among them, and each is the first of the
    stored playlists with its name.  The store is left as it is. *)
Theorem get_playlists_first_of_each_name (userId : string) (db : Db.t)
    (user : User.doc) :
  Db.users db !! userId = Some user ->
  let stored := Db.populate_playlists db (User.playlists user) in
  exists unique,
    get_playlists toLowerCase userId db
    = (Http.Json 200
         (map (fun p => playlist_json p
                          (map song_json (Db.populate_songs db (Playlist.songs p))))
            unique),
       db) /\
    sublist unique stored /\
    List.NoDup (map (fun p => toLowerCase (Playlist.name p)) unique) /\
    (forall p, In p stored ->
               exists q, In q unique /\
                         toLowerCase (Playlist.name q) = toLowerCase (Playlist.name p)) /\
    (forall q, In q unique ->
               exists before after,
                 stored = before ++ q :: after /\
                 forall p, In p before ->
                           toLowerCase (Playlist.name p) <> toLowerCase (Playlist.name q)).
Proof.
  intros Huser stored.
  exists (unique_by_name toLowerCase ∅ stored).
  split; [|split; [|split; [|split]]].
  - unfold get_playlists. rewrite Huser. reflexivity.
  - apply unique_by_name_sublist.
  - apply unique_by_name_NoDup.
  - intros p Hp. apply (unique_by_name_covers ∅) in Hp as [H | H].
    + set_solver.
    + exact H.
  - intros q Hq. now apply unique_by_name_first in Hq.
Qed.

End Names.

Lemma get_playlists_first_of_each_name_witness :
  Db.users Sample.db_bob !! Sample.bob_id = Some Sample.bob /\
  map Playlist.name (Db.populate_playlists Sample.db_bob (User.playlists Sample.bob))
  = [JS.of_ascii "Chill"; JS.of_ascii "chill"; JS.of_ascii "Work"] /\
  exists sent,
    get_playlists JS.ascii_toLowerCase Sample.bob_id Sample.db_bob
    = (Http.Json 200 sent, Sample.db_bob) /\
    map pj_name sent = [JS.of_ascii "Chill"; JS.of_ascii "Work"].
Proof.
  assert (Huser : Db.users Sample.db_bob !! Sample.bob_id = Some Sample.bob)
    by reflexivity.
  split; [exact Huser|]. split; [reflexivity|].
  destruct (get_playlists_first_of_each_name JS.ascii_toLowerCase Sample.bob_id
              Sample.db_bob Huser) as (unique & E & _).
  eexists. split; [exact E|].
  rewrite map_map. simpl.
  assert (K : fst (get_playlists JS.ascii_toLowerCase Sample.bob_id Sample.db_bob)
              = Http.Json 200
                  (map (fun p => playlist_json p []) 
                     [Sample.named Sample.list1_id "Chill";
                      Sample.named Sample.list3_id "Work"]))
    by (vm_compute; reflexivity).
  rewrite E in K. simpl in K. inversion K as [K'].
  apply (f_equal (map pj_name)) in K'. rewrite !map_map in K'. simpl in K'.
  exact K'.
Defined.

(** *** Creating a playlist *)

Section Create.

Variable toLowerCase : jsstring -> jsstring.

Lemma find_same_name (l : list Playlist.doc) (name : jsstring) :
  (exists p, In p l /\ toLowerCase (Playlist.name p) = toLowerCase name) ->
  exists q, List.find (fun p => JS.eqb (toLowerCase (Playlist.name p))
                                  (toLowerCase name)) l = Some q.
Proof.
  intros (p & Hp & E).
  destruct (List.find _ l) as [q|] eqn:F; [now exists q|].
  apply (find_none _ _ F) in Hp. apply JSFacts.eqb_neq in Hp. contradiction.
Qed.

Lemma find_no_same_name (l : list Playlist.doc) (name : jsstring) :
  (forall p, In p l -> toLowerCase (Playlist.name p) <> toLowerCase name) ->
  List.find (fun p => JS.eqb (toLowerCase (Playlist.name p))
                        (toLowerCase name)) l = None.
Proof.
  intros H. destruct (List.find _ l) as [q|] eqn:F; [|reflexivity].
  apply find_some in F as [Hq E]. apply JSFacts.eqb_eq in E.
  now apply H in Hq.
Qed.

Lemma post_playlists_taken (env : Env) (userId : string) (name : jsstring)
    (description : option jsstring) (db : Db.t) (user : User.doc) :
  name <> [] ->
  Db.users db !! userId = Some user ->
  (exists p, In p (Db.populate_playlists db (User.playlists user)) /\
             toLowerCase (Playlist.name p) = toLowerCase name) ->
  post_playlists toLowerCase env userId (Some name) description db
  = (Http.Failure 400 "A playlist with this name already exists", db).
Proof.
  intros Hname Huser Hsame. unfold post_playlists.
  destruct name as [|c s]; [congruence|]. rewrite Huser.
  apply find_same_name in Hsame as [q ->]. reflexivity.
Qed.

Lemma post_playlists_free (env : Env) (userId : string) (name : jsstring)
    (description : option jsstring) (db : Db.t) (user : User.doc) :
  name <> [] ->
  Db.users db !! userId = Some user ->
  (forall p, In p (Db.populate_playlists db (User.playlists user)) ->
             toLowerCase (Playlist.name p) <> toLowerCase name) ->
  post_playlists toLowerCase env userId (Some name) description db
  = (Http.Json 201 (playlist_json (new_Playlist env name description userId) []),
     Db.write_user
       (User.set_playlists (User.playlists user ++ [new_id env]) user)
       (Db.write_playlist (new_Playlist env name description userId) db)).
Proof.
  intros Hname Huser Hfree. unfold post_playlists.
  destruct name as [|c s]; [congruence|]. rewrite Huser.
  rewrite find_no_same_name by exact Hfree. reflexivity.
Qed.

(** C7, as amended: for an owner the store holds under its id and a name
    that is not empty, [POST /api/playlists] fails with status 400 and the
    error "A playlist with this name already exists", leaving the store as
    it is, if one of the owner's playlists has the same lower-cased name.
    Otherwise it answers 201, stores a new playlist without songs and
    appends its reference to the owner's playlists; from then on a request
    of the same owner with a name that differs by case only fails with
    that status 400 and error. *)
Theorem post_playlists_name_taken_or_created (env : Env) (userId : string)
    (name : jsstring) (description : option jsstring) (db : Db.t) (user : User.doc) :
  name <> [] ->
  Db.users db !! userId = Some user ->
  User._id user = userId ->
  let owned := Db.populate_playlists db (User.playlists user) in
  let response := fst (post_playlists toLowerCase env userId (Some name) description db) in
  let db' := snd (post_playlists toLowerCase env userId (Some name) description db) in
  ((exists p, In p owned /\ toLowerCase (Playlist.name p) = toLowerCase name) ->
   response = Http.Failure 400 "A playlist with this name already exists" /\
   Http.status response = 400%nat /\
   Http.is_error response = true /\
   db' = db) /\
  ((forall p, In p owned -> toLowerCase (Playlist.name p) <> toLowerCase name) ->
   response = Http.Json 201 (playlist_json (new_Playlist env name description userId) []) /\
   Playlist.songs (new_Playlist env name description userId) = [] /\
   Playlist.user (new_Playlist env name description userId) = userId /\
   Playlist.name (new_Playlist env name description userId) = name /\
   Db.playlists db' !! new_id env = Some (new_Playlist env name description userId) /\
   Db.users db' !! userId
   = Some (User.set_playlists (User.playlists user ++ [new_id env]) user) /\
   (forall id, id <> new_id env -> Db.playlists db' !! id = Db.playlists db !! id) /\
   (forall id, id <> userId -> Db.users db' !! id = Db.users db !! id) /\
   Db.songs db' = Db.songs db /\
   forall env' name' description',
     name' <> [] ->
     toLowerCase name' = toLowerCase name ->
     post_playlists toLowerCase env' userId (Some name') description' db'
     = (Http.Failure 400 "A playlist with this name already exists", db')).
Proof.
  intros Hname Huser Hid owned response db'. split.
  - intros Hsame. subst response db'.
    rewrite (@post_playlists_taken env userId name description db user) by assumption.
    repeat split.
  - intros Hfree. subst response db'.
    rewrite (@post_playlists_free env userId name description db user) by assumption.
    simpl.
    assert (Hu : forall pls,
               <[User._id (User.set_playlists
                             (User.playlists user ++ [new_id env]) user)
                 := User.set_playlists
                      (User.playlists user ++ [new_id env]) user]> (Db.users db)
               !! userId = pls ->
               pls = Some (User.set_playlists
                             (User.playlists user ++ [new_id env]) user)).
    { intros pls <-. simpl. rewrite Hid. now rewrite lookup_insert_eq. }
    repeat split.
    + apply lookup_insert_eq.
    + now apply Hu.
    + intros id Hne. now apply lookup_insert_ne.
    + intros id Hne. simpl. rewrite Hid. now apply lookup_insert_ne.
    + intros env' name' description' Hname' Hsame.
      eapply post_playlists_taken; [exact Hname' | now apply Hu |].
      exists (new_Playlist env name description userId). split; [|now symmetry].
      apply populate_playlists_In. exists (new_id env). split.
      * simpl. apply in_or_app. right. now left.
      * apply lookup_insert_eq.
Qed.

End Create.

Lemma post_playlists_name_taken_or_created_witness :
  JS.of_ascii "Road Trip" <> [] /\
  Db.users Sample.db !! Sample.alice_id = Some Sample.alice /\
  User._id Sample.alice = Sample.alice_id /\
  Http.status
    (fst (post_playlists JS.ascii_toLowerCase Sample.env Sample.alice_id
            (Some (JS.of_ascii "Road Trip")) None Sample.db)) = 201%nat /\
  fst (post_playlists JS.ascii_toLowerCase Sample.env2 Sample.alice_id
         (Some (JS.of_ascii "road trip")) None
         (snd (post_playlists JS.ascii_toLowerCase Sample.env Sample.alice_id
                 (Some (JS.of_ascii "Road Trip")) None Sample.db)))
  = Http.Failure 400 "A playlist with this name already exists".
Proof.
  assert (Hname : JS.of_ascii "Road Trip" <> []) by discriminate.
  assert (Huser : Db.users Sample.db !! Sample.alice_id = Some Sample.alice)
    by reflexivity.
  assert (Hid : User._id Sample.alice = Sample.alice_id) by reflexivity.
  destruct (@post_playlists_name_taken_or_created JS.ascii_toLowerCase Sample.env
              Sample.alice_id (JS.of_ascii "Road Trip") None Sample.db Sample.alice
              Hname Huser Hid) as [_ Hfree].
  destruct Hfree as (Hresponse & _ & _ & _ & _ & _ & _ & _ & _ & Hagain).
  { intros p Hp. apply populate_playlists_In in Hp as (id & Hin & E).
    destruct Hin as [<- | []]. vm_compute in E. inversion E; subst.
    vm_compute. discriminate. }
  split; [exact Hname|]. split; [exact Huser|]. split; [exact Hid|]. split.
  - exact (f_equal (@Http.status _) Hresponse).
  - assert (Hname' : JS.of_ascii "road trip" <> []) by discriminate.
    exact (f_equal fst (Hagain Sample.env2 (JS.of_ascii "road trip") None Hname'
                          eq_refl)).
Defined.

(** C7, as stated, fails: after "Road Trip" the request for "road trip" is
    refused, but not with a Conflict (status 409): the answer has status
    400, the status the handler also gives a request without a name. *)
Lemma duplicate_name_answers_400 :
  Http.status
    (fst (post_playlists JS.ascii_toLowerCase Sample.env Sample.alice_id
            (Some (JS.of_ascii "Road Trip")) None Sample.db)) = 201%nat /\
  fst (post_playlists JS.ascii_toLowerCase Sample.env2 Sample.alice_id
         (Some (JS.of_ascii "road trip")) None
         (snd (post_playlists JS.ascii_toLowerCase Sample.env Sample.alice_id
                 (Some (JS.of_ascii "Road Trip")) None Sample.db)))
  = Http.Failure 400 "A playlist with this name already exists" /\
  Http.status
    (fst (post_playlists JS.ascii_toLowerCase Sample.env2 Sample.alice_id
            (Some (JS.of_ascii "road trip")) None
            (snd (post_playlists JS.ascii_toLowerCase Sample.env Sample.alice_id
                    (Some (JS.of_ascii "Road Trip")) None Sample.db))))
  <> 409%nat /\
  fst (post_playlists JS.ascii_toLowerCase Sample.env2 Sample.alice_id None None
         (snd (post_playlists JS.ascii_toLowerCase Sample.env Sample.alice_id
                 (Some (JS.of_ascii "Road Trip")) None Sample.db)))
  = Http.Failure 400 "Playlist name is required".
Proof.
  split; [reflexivity|]. split; [vm_compute; reflexivity|].
  split; [vm_compute; discriminate | reflexivity].
Qed.

End RoutesFacts.

(** ** Mood filter: what holds for every mood *)

Module MoodMore.

Import Mood.

Lemma filter_from_sublist (A : Type) (keep : nat -> option bool) (tracks kept : list A)
    (i : nat) :
  filter_from keep i tracks = Some kept -> sublist kept tracks.
Proof.
  revert i kept; induction tracks as [|t tracks IH]; simpl; intros i kept H.
  - inversion H. constructor.
  - destruct (keep i) as [b|]; [|discriminate].
    destruct (filter_from keep (S i) tracks) as [kept'|] eqn:E; [|discriminate].
    inversion H; subst. destruct b.
    + apply sublist_skip. eapply IH; eauto.
    + apply sublist_cons. eapply IH; eauto.
Qed.

(** X1: whatever the mood and whatever the catalog answers,
    [filterTracksByMood] returns tracks of its input in the order of the
    input: it never adds, repeats or reorders a track. *)
Theorem filterTracksByMood_sublist
    (get_audio_features : list string -> option (list (option AudioFeatures)))
    (tracks : list Track.t) (mood : string) :
  sublist (filterTracksByMood get_audio_features tracks mood) tracks /\
  (List.length (filterTracksByMood get_audio_features tracks mood)
   <= List.length tracks)%nat.
Proof.
  assert (H : sublist (filterTracksByMood get_audio_features tracks mood) tracks).
  { unfold filterTracksByMood.
    destruct (moodProfiles mood) as [p| |]; try reflexivity;
      destruct (get_audio_features _) as [fs|]; try reflexivity;
      destruct (filter_from _ 0 tracks) as [kept|] eqn:E; try reflexivity;
      eapply filter_from_sublist; eauto. }
  split; [exact H | now apply sublist_length].
Qed.

Lemma not_configured_not_inherited (mood : string) :
  ~ In mood configured_moods -> ~ In mood object_prototype_keys ->
  moodProfiles mood = Undefined.
Proof.
  intros Hc Hi. unfold moodProfiles.
  destruct (String.eqb_spec mood "happy") as [-> | _]; [exfalso; apply Hc; simpl; tauto|].
  destruct (String.eqb_spec mood "neutral") as [-> | _]; [exfalso; apply Hc; simpl; tauto|].
  destruct (String.eqb_spec mood "angry") as [-> | _]; [exfalso; apply Hc; simpl; tauto|].
  destruct (String.eqb_spec mood "sad") as [-> | _]; [exfalso; apply Hc; simpl; tauto|].
  destruct (existsb (String.eqb mood) object_prototype_keys) eqn:E; [|reflexivity].
  exfalso. apply Hi. apply existsb_exists in E as (k & Hk & Ek).
  apply String.eqb_eq in Ek. now subst.
Qed.

(** X2: a mood that is neither one of the four labels nor the name of a
    member of [Object.prototype] makes [filterTracksByMood] return its
    input as it is, without looking at what the catalog answers. *)
Theorem filterTracksByMood_unknown_mood
    (get_audio_features : list string -> option (list (option AudioFeatures)))
    (tracks : list Track.t) (mood : string) :
  ~ In mood configured_moods ->
  ~ In mood object_prototype_keys ->
  filterTracksByMood get_audio_features tracks mood = tracks.
Proof.
  intros Hc Hi. unfold filterTracksByMood.
  now rewrite not_configured_not_inherited by assumption.
Qed.

Lemma filterTracksByMood_unknown_mood_witness :
  ~ In "sleepy" configured_moods /\
  ~ In "sleepy" object_prototype_keys /\
  filterTracksByMood Sample.audio_features [Sample.lover; Sample.shape] "sleepy"
  = [Sample.lover; Sample.shape].
Proof.
  assert (Hc : ~ In "sleepy" configured_moods).
  { simpl. intros [E | [E | [E | [E | []]]]]; discriminate E. }
  assert (Hi : ~ In "sleepy" object_prototype_keys).
  { simpl. intros H. repeat (destruct H as [E | H]; [discriminate E|]). exact H. }
  split; [exact Hc|]. split; [exact Hi|].
  exact (filterTracksByMood_unknown_mood Sample.audio_features
           [Sample.lover; Sample.shape] Hc Hi).
Defined.

Lemma inherited_key (mood : string) :
  In mood object_prototype_keys -> moodProfiles mood = Inherited.
Proof.
  simpl. intros H.
  repeat (destruct H as [<- | H]; [reflexivity|]). contradiction.
Qed.

(** Without a profile the callback throws at the first position that holds
    a triple, and drops every track when there is none. *)
Lemma filter_from_inherited (A : Type) (fs : list (option AudioFeatures))
    (tracks : list A) (i : nat) :
  filter_from (keeps Inherited fs) i tracks
  = if Notions.triple_from fs i (List.length tracks) then None else Some [].
Proof.
  revert i; induction tracks as [|t tracks IH]; intros i; simpl; [reflexivity|].
  unfold keeps at 1, Notions.triple_from. simpl.
  destruct (nth_error fs i) as [[f|]|]; simpl; try reflexivity;
    rewrite IH; unfold Notions.triple_from;
    now destruct (existsb _ (seq (S i) (List.length tracks))).
Qed.

(** X3: with a mood that names a member of [Object.prototype] (such as
    "constructor"), and an answer from the catalog, [filterTracksByMood]
    returns its input as it is when the answer holds a feature triple for
    one of the tracks, and returns no track at all when it holds none. *)
Theorem filterTracksByMood_inherited_mood
    (get_audio_features : list string -> option (list (option AudioFeatures)))
    (tracks : list Track.t) (mood : string) (fs : list (option AudioFeatures)) :
  In mood object_prototype_keys ->
  get_audio_features (map Track.id tracks) = Some fs ->
  filterTracksByMood get_audio_features tracks mood
  = if Notions.triple_from fs 0 (List.length tracks) then tracks else [].
Proof.
  intros Hi Hfs. unfold filterTracksByMood.
  rewrite inherited_key by assumption. rewrite Hfs, filter_from_inherited.
  now destruct (Notions.triple_from fs 0 (List.length tracks)).
Qed.

Lemma filterTracksByMood_inherited_mood_witness :
  In "constructor" object_prototype_keys /\
  filterTracksByMood Sample.audio_features [Sample.lover; Sample.shape] "constructor"
  = [Sample.lover; Sample.shape] /\
  filterTracksByMood (fun _ => Some [None; None]) [Sample.lover; Sample.shape] "constructor"
  = [].
Proof.
  assert (Hi : In "constructor" object_prototype_keys) by (simpl; tauto).
  split; [exact Hi|]. split.
  - exact (filterTracksByMood_inherited_mood Sample.audio_features
             [Sample.lover; Sample.shape] Hi eq_refl).
  - exact (@filterTracksByMood_inherited_mood (fun _ => Some [None; None])
             [Sample.lover; Sample.shape] "constructor" [None; None] Hi eq_refl).
Defined.

Ltac absurd_bounds :=
  match goal with
  | [ H1 : (?a <= ?x)%Q, H2 : (?x <= ?b)%Q |- False ] =>
      let K := fresh in
      pose proof (Qle_trans _ _ _ H1 H2) as K;
      unfold Qle in K; simpl in K; lia
  end.

(** X4: the profiles of happy, angry and sad exclude each other: no
    feature triple fits two of them.  Neutral shares its bounds with the
    others: a triple on the common bounds fits neutral and happy. *)
Theorem profiles_exclusive (f : AudioFeatures) :
  ~ (in_profile happy f /\ in_profile sad f) /\
  ~ (in_profile happy f /\ in_profile angry f) /\
  ~ (in_profile angry f /\ in_profile sad f) /\
  (exists g, in_profile neutral g /\ in_profile happy g).
Proof.
  unfold in_profile, within; simpl.
  split; [|split; [|split]].
  - intros [((H1 & _) & _) ((_ & H2) & _)]. absurd_bounds.
  - intros [((H1 & _) & _) ((_ & H2) & _)]. absurd_bounds.
  - intros [(_ & (H1 & _) & _) (_ & (_ & H2) & _)]. absurd_bounds.
  - exists (Build_AudioFeatures (6#10) (5#10) (5#10)). simpl.
    unfold Qle; simpl. lia.
Qed.

Lemma profiles_exclusive_witness :
  ~ (in_profile happy (Build_AudioFeatures (7#10) (6#10) (6#10)) /\
     in_profile sad (Build_AudioFeatures (7#10) (6#10) (6#10))) /\
  in_profile happy (Build_AudioFeatures (7#10) (6#10) (6#10)).
Proof.
  split.
  - exact (proj1 (profiles_exclusive (Build_AudioFeatures (7#10) (6#10) (6#10)))).
  - unfold in_profile, within, Qle; simpl. lia.
Defined.

End MoodMore.

(** ** The catalog credential *)

Module TokenFacts.

Import Token.

Lemma ensure_held (answer : option (option string)) (accessToken : option string) :
  JS.truthy_id accessToken = true ->
  ensureAccessToken answer accessToken = (true, accessToken).
Proof. intros H. unfold ensureAccessToken. now rewrite H. Qed.

Lemma after_requests_held (answers : list (option (option string)))
    (accessToken : option string) :
  JS.truthy_id accessToken = true ->
  after_requests answers accessToken = accessToken.
Proof.
  intros H. unfold after_requests.
  induction answers as [|answer answers IH]; simpl; [reflexivity|].
  rewrite ensure_held by exact H. exact IH.
Qed.

Lemma after_requests_thrown (n : nat) (accessToken : option string) :
  after_requests (repeat None n) accessToken = accessToken.
Proof.
  unfold after_requests. induction n as [|n IH]; simpl; [reflexivity|].
  unfold ensureAccessToken, getAccessToken.
  destruct (negb (JS.truthy_id accessToken)); exact IH.
Qed.

(** X5: the credential is fetched until a fetch gives a usable token and
    never again: token requests that throw leave the variable as it is,
    the first usable token is stored, and from then on every
    [ensureAccessToken] returns without a request, whatever the token
    endpoint would answer. *)
Theorem token_fetched_once (failed : nat) (token : option string)
    (later : list (option (option string))) :
  JS.truthy_id token = true ->
  after_requests (repeat None failed ++ Some token :: later) initial = token /\
  Forall (fun answer => ensureAccessToken answer token = (true, token)) later.
Proof.
  intros H. split.
  - unfold after_requests. rewrite fold_left_app.
    fold (after_requests (repeat None failed) initial).
    rewrite after_requests_thrown. simpl.
    fold (after_requests later token). now apply after_requests_held.
  - apply Forall_forall. intros answer _. now apply ensure_held.
Qed.

Lemma token_fetched_once_witness :
  JS.truthy_id (Some "BQDtoken") = true /\
  after_requests [None; None; Some (Some "BQDtoken"); Some (Some "BQDlater"); None] initial
  = Some "BQDtoken".
Proof.
  split; [reflexivity|].
  exact (proj1 (@token_fetched_once 2 (Some "BQDtoken") [Some (Some "BQDlater"); None]
                  eq_refl)).
Defined.

End TokenFacts.

(** ** Callbacks that throw *)

Module ThrowingFacts.

Lemma map_throwing_None (A B : Type) (f : A -> option B) (l : list A) (x : A) :
  In x l -> f x = None -> JS.map_throwing f l = None.
Proof.
  induction l as [|y l IH]; simpl; [tauto|].
  intros [-> | H] E.
  - now rewrite E.
  - destruct (f y); [|reflexivity]. now rewrite IH.
Qed.

Lemma map_throwing_Some (A B : Type) (f : A -> option B) (l : list A) :
  (forall x, In x l -> f x <> None) ->
  exists ys, JS.map_throwing f l = Some ys /\ map f l = map Some ys.
Proof.
  induction l as [|x l IH]; simpl; intros H.
  - exists []. auto.
  - destruct (f x) as [y|] eqn:E; [|exfalso; apply (H x); auto].
    destruct IH as (ys & -> & M); [intros z Hz; apply H; auto|].
    exists (y :: ys). simpl. rewrite M. auto.
Qed.

Lemma map_Some_length (A B : Type) (f : A -> option B) (l : list A) (ys : list B) :
  map f l = map Some ys -> List.length ys = List.length l.
Proof.
  intros H. apply (f_equal (@List.length _)) in H.
  rewrite !length_map in H. auto.
Qed.

End ThrowingFacts.

(** ** The catalog proxies *)

Module CatalogFacts.

Import Catalog.

Lemma formatTracks_ids (tracks : list Track.t) (mood : option string) :
  map id (formatTracks tracks mood) = map Track.id tracks.
Proof. unfold formatTracks. rewrite map_map. reflexivity. Qed.

Lemma mood_song_id (t : Track.t) (s : MoodSong) :
  mood_song t = Some s -> ms_id s = Track.id t.
Proof.
  unfold mood_song. destruct (Track.album t); [|discriminate].
  destruct (Track.external_urls t); [|discriminate].
  intros H; inversion H; reflexivity.
Qed.

Lemma map_Some_ids (A B : Type) (f : A -> option B) (ia : A -> string) (ib : B -> string)
    (l : list A) (ys : list B) :
  (forall x y, f x = Some y -> ib y = ia x) ->
  map f l = map Some ys -> map ib ys = map ia l.
Proof.
  intros Hid. revert ys; induction l as [|x l IH]; intros [|y ys] H;
    simpl in *; try discriminate; [reflexivity|].
  inversion H as [[E M]]. f_equal; [now apply Hid | now apply IH].
Qed.

(** X6: [GET /api/songs/:mood] uses the mood as a search term only.  For a
    mood that is not empty: a search that throws gives 500; an empty
    result gives 404 with the mood in the message; a result in which some
    track lacks its album or its external URLs gives 500 for the whole
    request; otherwise the answer is 200 with one song per track found, in
    the order of the search. *)
Theorem get_songs_mood_outcomes (search : string -> nat -> option (list Track.t))
    (mood : string) :
  mood <> "" ->
  (search mood 50%nat = None ->
   get_songs_mood search mood = Http.Failure 500 "Failed to fetch songs from Spotify") /\
  (search mood 50%nat = Some [] ->
   get_songs_mood search mood = Http.Failure 404 ("No " ++ mood ++ " songs found")) /\
  (forall items t,
     search mood 50%nat = Some items -> In t items ->
     Track.album t = None \/ Track.external_urls t = None ->
     get_songs_mood search mood = Http.Failure 500 "Failed to fetch songs from Spotify") /\
  (forall items,
     search mood 50%nat = Some items -> items <> [] ->
     (forall t, In t items -> Track.album t <> None /\ Track.external_urls t <> None) ->
     exists songs,
       get_songs_mood search mood = Http.Json 200 songs /\
       map ms_id songs = map Track.id items).
Proof.
  intros Hmood.
  assert (U : get_songs_mood search mood
              = match search mood 50%nat with
                | Some items =>
                    if Nat.eqb (List.length items) 0
                    then Http.Failure 404 ("No " ++ mood ++ " songs found")
                    else match JS.map_throwing mood_song items with
                         | Some songs => Http.Json 200 songs
                         | None => Http.Failure 500 "Failed to fetch songs from Spotify"
                         end
                | None => Http.Failure 500 "Failed to fetch songs from Spotify"
                end).
  { unfold get_songs_mood. destruct mood; [congruence | reflexivity]. }
  rewrite U. split; [|split; [|split]].
  - now intros ->.
  - now intros ->.
  - intros items t -> Ht Hlack.
    destruct items as [|t0 items]; [contradiction|].
    cbn [List.length Nat.eqb].
    rewrite (ThrowingFacts.map_throwing_None mood_song (t0 :: items) t Ht); [reflexivity|].
    unfold mood_song. destruct Hlack as [-> | ->]; [reflexivity|].
    now destruct (Track.album t).
  - intros items -> Hne Hall.
    destruct items as [|t0 items]; [congruence|].
    cbn [List.length Nat.eqb].
    destruct (ThrowingFacts.map_throwing_Some mood_song (t0 :: items)) as (songs & -> & M).
    { intros t Ht. destruct (Hall t Ht) as [Ha Hu]. unfold mood_song.
      destruct (Track.album t); [|congruence].
      destruct (Track.external_urls t); [discriminate | congruence]. }
    exists songs. split; [reflexivity|].
    eapply map_Some_ids; [|exact M]. apply mood_song_id.
Qed.

Lemma get_songs_mood_outcomes_witness :
  "happy" <> "" /\
  get_songs_mood (fun _ _ => Some []) "happy" = Http.Failure 404 "No happy songs found".
Proof.
  assert (H : "happy" <> "") by discriminate.
  split; [exact H|].
  destruct (get_songs_mood_outcomes (fun _ _ => Some []) H) as (_ & H404 & _).
  exact (H404 eq_refl).
Defined.

(** X7: [GET /api/search/songs] answers 400 without a query and otherwise,
    whenever the catalog answers, 200 with one entry per track found, in
    the order found: an empty result is an empty array, not an error, and a
    track without album is sent without album. *)
Theorem get_search_songs_outcomes (search : string -> nat -> option (list Track.t))
    (q : option string) :
  (JS.truthy_id q = false ->
   get_search_songs search q = Http.Failure 400 "Search query is required") /\
  (forall query tracks,
     q = Some query -> query <> "" -> search query 20%nat = Some tracks ->
     exists found,
       get_search_songs search q = Http.Json 200 found /\
       map id found = map Track.id tracks /\
       (tracks = [] -> found = []) /\
       (forall t, In t tracks -> Track.album t = None ->
                  exists e, In e found /\ id e = Track.id t /\ album e = None)) /\
  (forall query,
     q = Some query -> query <> "" -> search query 20%nat = None ->
     get_search_songs search q = Http.Failure 500 "Failed to search songs").
Proof.
  split; [|split].
  - destruct q as [[|c s]|]; try discriminate; reflexivity.
  - intros query tracks -> Hq Hs. destruct query as [|c s]; [congruence|].
    unfold get_search_songs. rewrite Hs.
    exists (formatTracks tracks None). split; [reflexivity|].
    split; [apply formatTracks_ids|]. split; [now intros ->|].
    intros t Ht Ha. exists (format None t). split.
    + unfold formatTracks. now apply in_map.
    + split; [reflexivity|]. unfold format. simpl. now rewrite Ha.
  - intros query -> Hq Hs. destruct query as [|c s]; [congruence|].
    unfold get_search_songs. now rewrite Hs.
Qed.

Lemma get_search_songs_outcomes_witness :
  JS.truthy_id (Some "") = false /\
  get_search_songs (fun _ _ => None) (Some "") = Http.Failure 400 "Search query is required" /\
  get_search_songs (fun _ _ => Some []) (Some "lover") = Http.Json 200 [].
Proof.
  split; [reflexivity|]. split.
  - exact (proj1 (get_search_songs_outcomes (fun _ _ => None) (Some "")) eq_refl).
  - destruct (get_search_songs_outcomes (fun _ _ => Some []) (Some "lover"))
      as (_ & H & _).
    destruct (H "lover" [] eq_refl) as (found & E & _ & Hnil & _);
      [discriminate | reflexivity |].
    rewrite E, (Hnil eq_refl). reflexivity.
Defined.

Lemma release_song_id (a : Release) (s : ReleaseSong) :
  release_song a = Some s -> rs_id s = r_id a /\ rs_preview_url s = None.
Proof.
  unfold release_song. destruct (r_external_urls a); [|discriminate].
  intros H; inversion H; auto.
Qed.

(** X8: [GET /api/new-releases] answers 200 exactly when the catalog
    answered and every album carries its external URLs; the array then
    holds one entry per album, in the catalog's order, none of them with a
    preview.  One album without external URLs turns the whole answer into
    500. *)
Theorem get_new_releases_outcomes (new_releases : option (list Release)) :
  (forall items,
     new_releases = Some items ->
     (forall a, In a items -> r_external_urls a <> None) ->
     exists songs,
       get_new_releases new_releases = Http.Json 200 songs /\
       map rs_id songs = map r_id items /\
       forall s, In s songs -> rs_preview_url s = None) /\
  (forall items a,
     new_releases = Some items -> In a items -> r_external_urls a = None ->
     get_new_releases new_releases = Http.Failure 500 "Failed to fetch new releases") /\
  (new_releases = None ->
   get_new_releases new_releases = Http.Failure 500 "Failed to fetch new releases").
Proof.
  split; [|split].
  - intros items -> Hall. unfold get_new_releases.
    destruct (ThrowingFacts.map_throwing_Some release_song items) as (songs & -> & M).
    { intros a Ha. unfold release_song. specialize (Hall a Ha).
      destruct (r_external_urls a); [discriminate | congruence]. }
    exists songs. split; [reflexivity|]. split.
    + eapply map_Some_ids; [|exact M]. intros a s E. now apply release_song_id in E.
    + intros s Hs.
      assert (K : In (Some s) (map release_song items))
        by (rewrite M; now apply in_map).
      apply in_map_iff in K as (a & E & _). now apply release_song_id in E.
  - intros items a -> Ha Hnone. unfold get_new_releases.
    rewrite (ThrowingFacts.map_throwing_None release_song items a Ha); [reflexivity|].
    unfold release_song. now rewrite Hnone.
  - now intros ->.
Qed.

Lemma get_new_releases_outcomes_witness :
  get_new_releases
    (Some [Build_Release "al1" (JS.of_ascii "Lover") [] [] (Some (Some "https://open.spotify.com/album/al1"));
           Build_Release "al2" (JS.of_ascii "Divide") [] [] None])
  = Http.Failure 500 "Failed to fetch new releases".
Proof.
  destruct (get_new_releases_outcomes
              (Some [Build_Release "al1" (JS.of_ascii "Lover") [] []
                       (Some (Some "https://open.spotify.com/album/al1"));
                     Build_Release "al2" (JS.of_ascii "Divide") [] [] None]))
    as (_ & H & _).
  eapply H; [reflexivity | right; left; reflexivity | reflexivity].
Defined.

Section TopTracks.

Variable prototype_text : string -> string.
Variable top_tracks : string -> option (list Track.t).
Variable albums : string -> option (list string).
Variable album_tracks : string -> option (option (list Track.t)).
Variable search_name : string -> option (option (list Track.t)).

Local Abbreviation handler :=
  (get_artist_top_tracks prototype_text top_tracks albums album_tracks search_name).
Local Abbreviation tracks_sent :=
  (artist_tracks prototype_text top_tracks albums album_tracks search_name).

Lemma artist_tracks_top (artistId : string) (t : Track.t) (tracks : list Track.t) :
  top_tracks artistId = Some (t :: tracks) ->
  tracks_sent artistId = Some (formatTracks (t :: tracks) None).
Proof. intros H. unfold artist_tracks. now rewrite H. Qed.

Lemma artist_tracks_no_top (artistId : string) :
  top_tracks artistId = None \/ top_tracks artistId = Some [] ->
  tracks_sent artistId
  = match album_approach albums album_tracks artistId [] with
    | Some tracks =>
        match Nat.eqb (List.length tracks) 0, special_name prototype_text artistId with
        | true, Some name => format_or_throw (search_approach search_name name tracks)
        | _, _ => format_or_throw (Some tracks)
        end
    | None => None
    end.
Proof. unfold artist_tracks. now intros [-> | ->]. Qed.

Lemma album_approach_nothing (artistId : string) :
  albums artistId = None \/ albums artistId = Some [] \/
  (exists first rest, albums artistId = Some (first :: rest) /\
                      (album_tracks first = None \/
                       album_tracks first = Some (Some []))) ->
  album_approach albums album_tracks artistId [] = Some [].
Proof.
  unfold album_approach.
  intros [-> | [-> | (first & rest & -> & [-> | ->])]]; reflexivity.
Qed.

Lemma artist_tracks_thrown (artistId : string) :
  tracks_sent artistId = None ->
  (top_tracks artistId = None \/ top_tracks artistId = Some []) /\
  ((exists first rest, albums artistId = Some (first :: rest) /\
                       album_tracks first = Some None) \/
   (exists name, special_name prototype_text artistId = Some name /\
                 search_name name = Some None)).
Proof.
  intros H.
  assert (Htop : top_tracks artistId = None \/ top_tracks artistId = Some []).
  { destruct (top_tracks artistId) as [[|t tracks]|] eqn:E; auto.
    now rewrite (artist_tracks_top E) in H. }
  split; [exact Htop|].
  rewrite (artist_tracks_no_top Htop) in H.
  unfold album_approach in H.
  destruct (albums artistId) as [[|first rest]|] eqn:Ha.
  - cbn [List.length Nat.eqb] in H.
    destruct (special_name prototype_text artistId) as [name|]; [|discriminate].
    right. exists name. split; [reflexivity|].
    unfold search_approach in H.
    destruct (search_name name) as [[items|]|]; try discriminate. reflexivity.
  - destruct (album_tracks first) as [[items|]|] eqn:Hi.
    + destruct (Nat.eqb (List.length items) 0); [|discriminate].
      destruct (special_name prototype_text artistId) as [name|]; [|discriminate].
      right. exists name. split; [reflexivity|].
      unfold search_approach in H.
      destruct (search_name name) as [[items'|]|]; try discriminate. reflexivity.
    + left. now exists first, rest.
    + cbn [List.length Nat.eqb] in H.
      destruct (special_name prototype_text artistId) as [name|]; [|discriminate].
      right. exists name. split; [reflexivity|].
      unfold search_approach in H.
      destruct (search_name name) as [[items|]|]; try discriminate. reflexivity.
  - cbn [List.length Nat.eqb] in H.
    destruct (special_name prototype_text artistId) as [name|]; [|discriminate].
    right. exists name. split; [reflexivity|].
    unfold search_approach in H.
    destruct (search_name name) as [[items|]|]; try discriminate. reflexivity.
Qed.

Lemma artist_tracks_formatted (artistId : string) (sent : list Formatted) :
  tracks_sent artistId = Some sent ->
  exists tracks, sent = formatTracks tracks None.
Proof.
  unfold artist_tracks, format_or_throw, search_approach.
  repeat match goal with
         | |- context [match ?x with _ => _ end] => destruct x
         end; intros [= <-];
    solve [eexists; reflexivity | exists []; reflexivity].
Qed.

(** X9: [GET /api/artist-top-tracks/:artistId] sends no response when the
    credential is missing and the token request throws.  When the
    credential step returns, a response is sent, and an earlier source that
    gave tracks is never overridden: the artist's top tracks are sent
    (status 200) whenever there are some; else the tracks of the first
    album when there are some; the search by name is made only for an id
    [specialArtists] gives a name, and only when both gave nothing; when
    every catalog request throws the response is 200 with an empty array.
    The response is an error, 500 "Failed to fetch artist top tracks",
    exactly when [tracks] becomes [undefined]: the answer for the first
    album's tracks, or the search's answer, has no [items]. *)
Theorem get_artist_top_tracks_fallbacks (post_token : option (option string))
    (accessToken : option string) (artistId : string) :
  (JS.truthy_id accessToken = false -> post_token = None ->
   handler post_token accessToken artistId = (None, accessToken)) /\
  (forall token,
     Token.ensureAccessToken post_token accessToken = (true, token) ->
     exists response,
       handler post_token accessToken artistId = (Some response, token) /\
       (response = Http.Failure 500 "Failed to fetch artist top tracks" \/
        exists tracks, response = Http.Json 200 (formatTracks tracks None)) /\
       (forall t tracks,
          top_tracks artistId = Some (t :: tracks) ->
          response = Http.Json 200 (formatTracks (t :: tracks) None)) /\
       (top_tracks artistId = None \/ top_tracks artistId = Some [] ->
        (forall first rest t items,
           albums artistId = Some (first :: rest) ->
           album_tracks first = Some (Some (t :: items)) ->
           response = Http.Json 200 (formatTracks (t :: items) None)) /\
        (forall first rest,
           albums artistId = Some (first :: rest) ->
           album_tracks first = Some None ->
           response = Http.Failure 500 "Failed to fetch artist top tracks") /\
        (albums artistId = None \/ albums artistId = Some [] \/
         (exists first rest, albums artistId = Some (first :: rest) /\
                             (album_tracks first = None \/
                              album_tracks first = Some (Some []))) ->
         (special_name prototype_text artistId = None ->
          response = Http.Json 200 []) /\
         (forall name,
            special_name prototype_text artistId = Some name ->
            (search_name name = None -> response = Http.Json 200 []) /\
            (search_name name = Some None ->
             response = Http.Failure 500 "Failed to fetch artist top tracks") /\
            (forall items,
               search_name name = Some (Some items) ->
               response = Http.Json 200 (formatTracks items None))))) /\
       (Http.is_error response = true ->
        (top_tracks artistId = None \/ top_tracks artistId = Some []) /\
        ((exists first rest, albums artistId = Some (first :: rest) /\
                             album_tracks first = Some None) \/
         (exists name, special_name prototype_text artistId = Some name /\
                       search_name name = Some None)))).
Proof.
  split.
  - intros Htoken ->. unfold get_artist_top_tracks, Token.ensureAccessToken.
    rewrite Htoken. reflexivity.
  - intros token Hensure. unfold get_artist_top_tracks. rewrite Hensure.
    eexists. split; [reflexivity|].
    split; [|split; [|split]].
    + destruct (tracks_sent artistId) as [sent|] eqn:E; [right|left; reflexivity].
      destruct (@artist_tracks_formatted artistId sent E) as [tracks ->]. now exists tracks.
    + intros t tracks Htop. now rewrite (artist_tracks_top Htop).
    + intros Htop. rewrite (artist_tracks_no_top Htop).
      split; [|split].
      * intros first rest t items Ha Hi. unfold album_approach.
        rewrite Ha, Hi. reflexivity.
      * intros first rest Ha Hi. unfold album_approach. now rewrite Ha, Hi.
      * intros Halbum. rewrite (album_approach_nothing Halbum).
        cbn [List.length Nat.eqb]. split.
        -- now intros ->.
        -- intros name ->. unfold search_approach.
           split; [|split]; [now intros -> | now intros -> | now intros items ->].
    + intros Herror.
      destruct (tracks_sent artistId) as [sent|] eqn:E; [discriminate|].
      now apply artist_tracks_thrown.
Qed.

End TopTracks.

Lemma get_artist_top_tracks_fallbacks_witness :
  Token.ensureAccessToken None (Some "BQDtoken") = (true, Some "BQDtoken") /\
  get_artist_top_tracks (fun _ => "") (fun _ => Some []) (fun _ => Some ["al1"])
    (fun _ => Some None) (fun _ => Some (Some [Sample.shape]))
    None (Some "BQDtoken") "5XacWe2kM6K9G2QJ1q8u0E"
  = (Some (Http.Failure 500 "Failed to fetch artist top tracks"), Some "BQDtoken") /\
  get_artist_top_tracks (fun _ => "") (fun _ => Some []) (fun _ => Some ["al1"])
    (fun _ => Some None) (fun _ => Some (Some [Sample.shape]))
    None Token.initial "5XacWe2kM6K9G2QJ1q8u0E"
  = (None, Token.initial).
Proof.
  pose proof (get_artist_top_tracks_fallbacks (fun _ => "") (fun _ => Some [])
                (fun _ => Some ["al1"]) (fun _ => Some None)
                (fun _ => Some (Some [Sample.shape])) None (Some "BQDtoken")
                "5XacWe2kM6K9G2QJ1q8u0E") as [_ Hsent].
  pose proof (get_artist_top_tracks_fallbacks (fun _ => "") (fun _ => Some [])
                (fun _ => Some ["al1"]) (fun _ => Some None)
                (fun _ => Some (Some [Sample.shape])) None Token.initial
                "5XacWe2kM6K9G2QJ1q8u0E") as [Hnone _].
  split; [reflexivity|]. split; [|exact (Hnone eq_refl eq_refl)].
  destruct (Hsent (Some "BQDtoken") eq_refl) as (response & -> & _ & _ & Hfall & _).
  destruct (Hfall (or_intror eq_refl)) as (_ & H500 & _).
  now rewrite (H500 "al1" [] eq_refl eq_refl).
Defined.

End CatalogFacts.

(** ** Track aggregator: sizes and the tracks [/api/mixed-hits] cannot send *)

Module AggregatorMore.

Import Aggregator.

Lemma contribution_length (top_tracks : string -> option (list Track.t)) (a : ArtistSource) :
  (List.length (contribution top_tracks a) <= count a)%nat.
Proof.
  unfold contribution. destruct (top_tracks (id a)) as [tracks|]; simpl; [|lia].
  rewrite length_map. apply firstn_le_length.
Qed.

Lemma collect_length (top_tracks : string -> option (list Track.t))
    (artists : list ArtistSource) :
  (List.length (collect top_tracks artists) <= list_sum (map count artists))%nat.
Proof.
  rewrite AggregatorFacts.collect_flat_map.
  induction artists as [|a artists IH]; simpl; [lia|].
  rewrite length_app. pose proof (contribution_length top_tracks a). lia.
Qed.

(** X10: the aggregation endpoints are bounded: [/api/mixed] never sends
    more than 23 songs, the sum of the counts of its five sources, and
    [/api/mixed1] and [/api/mixed-hits] never send more than 50. *)
Theorem aggregation_bounded
    (shuffle : forall A : Type, list A -> list A)
    (top_tracks : string -> option (list Track.t))
    (playlist_tracks : string -> nat -> option (list Item)) :
  (forall (A : Type) (l : list A), Permutation l (shuffle A l)) ->
  (forall songs, mixed shuffle top_tracks = Http.Json 200 songs ->
                 (List.length songs <= 23)%nat) /\
  (forall songs, mixed1 shuffle top_tracks = Http.Json 200 songs ->
                 (List.length songs <= 50)%nat) /\
  (forall hits, mixed_hits shuffle playlist_tracks = Http.Json 200 hits ->
                (List.length hits <= 50)%nat).
Proof.
  intros Hperm. split; [|split].
  - intros songs E. unfold mixed in E. inversion E; subst.
    rewrite <- (Permutation_length (Hperm _ _)), length_map.
    apply (collect_length top_tracks mixed_artists).
  - intros songs E. unfold mixed1 in E. inversion E; subst.
    apply firstn_le_length.
  - intros hits E. unfold mixed_hits in E.
    destruct (playlist_tracks _ _); [|discriminate].
    destruct (playlist_tracks _ _); [|discriminate].
    destruct (playlist_tracks _ _); [|discriminate].
    destruct (JS.map_throwing hit _); [|discriminate].
    inversion E; subst. apply firstn_le_length.
Qed.

Lemma aggregation_bounded_witness :
  (forall (A : Type) (l : list A), Permutation l (Sample.keep_order l)) /\
  (forall songs, mixed Sample.keep_order Sample.only_ed_sheeran = Http.Json 200 songs ->
                 (List.length songs <= 23)%nat).
Proof.
  split; [intros A l; apply Permutation_refl|].
  exact (proj1 (@aggregation_bounded Sample.keep_order Sample.only_ed_sheeran
                  Sample.lists_english_down (fun A l => Permutation_refl l))).
Defined.

Section Hits.

Variable shuffle : forall A : Type, list A -> list A.
Hypothesis shuffle_permutes : forall (A : Type) (l : list A), Permutation l (shuffle l).
Variable playlist_tracks : string -> nat -> option (list Item).
Variables englishRes punjabiRes hindiRes : list Item.
Hypothesis english_answers :
  playlist_tracks (l_id english) (l_limit english) = Some englishRes.
Hypothesis punjabi_answers :
  playlist_tracks (l_id punjabi) (l_limit punjabi) = Some punjabiRes.
Hypothesis hindi_answers :
  playlist_tracks (l_id hindi) (l_limit hindi) = Some hindiRes.

Lemma mixed_hits_answered :
  mixed_hits shuffle playlist_tracks
  = match JS.map_throwing hit
            (shuffle (tracks_of (englishRes ++ punjabiRes ++ hindiRes))) with
    | Some songs => Http.Json 200 (firstn 50 songs)
    | None => Http.Failure 500 "Failed to fetch songs"
    end.
Proof.
  unfold mixed_hits. now rewrite english_answers, punjabi_answers, hindi_answers.
Qed.

Lemma mixed_hits_one_bad_track (t : Track.t) :
  In (Build_Item (Some t)) (englishRes ++ punjabiRes ++ hindiRes) ->
  Track.album t = None \/ Track.external_urls t = None ->
  mixed_hits shuffle playlist_tracks = Http.Failure 500 "Failed to fetch songs".
Proof.
  intros Hin Hlack. rewrite mixed_hits_answered.
  rewrite (ThrowingFacts.map_throwing_None hit _ t); [reflexivity | |].
  - apply (Permutation_in _ (shuffle_permutes _)).
    now apply AggregatorFacts.tracks_of_In.
  - unfold hit. destruct Hlack as [-> | ->]; [reflexivity|].
    now destruct (Track.album t).
Qed.

Lemma language_of_labels (album : Album.t) (name : jsstring) :
  In (language_of album name) ["english"; "hindi"; "punjabi"].
Proof.
  unfold language_of. destruct (Album.available_markets album) as [markets|];
    [|simpl; tauto].
  destruct (existsb _ markets); [|simpl; tauto].
  destruct (JS.has_unit_in 2309 2361 name); [simpl; tauto|].
  destruct (JS.has_unit_in 2561 2676 name); simpl; tauto.
Qed.

Lemma mixed_hits_all_good :
  (forall t, In (Build_Item (Some t)) (englishRes ++ punjabiRes ++ hindiRes) ->
             Track.album t <> None /\ Track.external_urls t <> None) ->
  exists hits,
    mixed_hits shuffle playlist_tracks = Http.Json 200 (firstn 50 hits) /\
    Permutation (map h_id hits)
      (map Track.id (tracks_of (englishRes ++ punjabiRes ++ hindiRes))) /\
    forall h, In h hits -> In (h_language h) ["english"; "hindi"; "punjabi"].
Proof.
  intros Hall. rewrite mixed_hits_answered.
  destruct (ThrowingFacts.map_throwing_Some hit
              (shuffle (tracks_of (englishRes ++ punjabiRes ++ hindiRes))))
    as (hits & -> & M).
  { intros t Ht.
    apply (Permutation_in _ (Permutation_sym (shuffle_permutes _))) in Ht.
    apply AggregatorFacts.tracks_of_In in Ht. destruct (Hall t Ht) as [Ha Hu].
    unfold hit. destruct (Track.album t); [|congruence].
    destruct (Track.external_urls t); [discriminate | congruence]. }
  exists hits. split; [reflexivity|]. split.
  - rewrite (CatalogFacts.map_Some_ids hit Track.id h_id _ hits) by
        (try exact M; intros t h E;
         destruct (AggregatorFacts.hit_language _ E) as (a & _ & Hid & _); exact Hid).
    apply Permutation_map, Permutation_sym, shuffle_permutes.
  - intros h Hh.
    assert (K : In (Some h) (map hit (shuffle (tracks_of (englishRes ++ punjabiRes ++ hindiRes)))))
      by (rewrite M; now apply in_map).
    apply in_map_iff in K as (t & E & _).
    destruct (AggregatorFacts.hit_language _ E) as (a & _ & _ & ->).
    apply language_of_labels.
Qed.

End Hits.

(** X11: when the three lists of [/api/mixed-hits] resolve, one track
    without album or without external URLs among their entries makes the
    endpoint answer 500 and send nothing. *)
Theorem mixed_hits_bad_track_fails
    (shuffle : forall A : Type, list A -> list A)
    (playlist_tracks : string -> nat -> option (list Item))
    (englishRes punjabiRes hindiRes : list Item) (t : Track.t) :
  (forall (A : Type) (l : list A), Permutation l (shuffle A l)) ->
  playlist_tracks (l_id english) (l_limit english) = Some englishRes ->
  playlist_tracks (l_id punjabi) (l_limit punjabi) = Some punjabiRes ->
  playlist_tracks (l_id hindi) (l_limit hindi) = Some hindiRes ->
  In (Build_Item (Some t)) (englishRes ++ punjabiRes ++ hindiRes) ->
  Track.album t = None \/ Track.external_urls t = None ->
  mixed_hits shuffle playlist_tracks = Http.Failure 500 "Failed to fetch songs".
Proof.
  intros Hperm He Hp Hh Hin Hlack.
  now apply (@mixed_hits_one_bad_track shuffle Hperm playlist_tracks
               englishRes punjabiRes hindiRes He Hp Hh t).
Qed.

Lemma mixed_hits_bad_track_fails_witness :
  mixed_hits Sample.keep_order
    (fun id _ => if String.eqb id "37i9dQZF1DX0XUsuxWHRQd"
                 then Some [Build_Item (Some Fixtures.single)]
                 else Some [Build_Item (Some Sample.lover)])
  = Http.Failure 500 "Failed to fetch songs".
Proof.
  apply (@mixed_hits_bad_track_fails Sample.keep_order _
           [Build_Item (Some Sample.lover)] [Build_Item (Some Sample.lover)]
           [Build_Item (Some Fixtures.single)] Fixtures.single).
  - intros A l. apply Permutation_refl.
  - reflexivity.
  - reflexivity.
  - reflexivity.
  - simpl. tauto.
  - left. reflexivity.
Defined.

(** X12: when the three lists of [/api/mixed-hits] resolve and every track
    among their entries has its album and external URLs, the endpoint
    answers 200 with the first 50 of a random arrangement of exactly those
    tracks (entries without track are skipped), each with one of the
    languages english, hindi and punjabi. *)
Theorem mixed_hits_sends_all_tracks
    (shuffle : forall A : Type, list A -> list A)
    (playlist_tracks : string -> nat -> option (list Item))
    (englishRes punjabiRes hindiRes : list Item) :
  (forall (A : Type) (l : list A), Permutation l (shuffle A l)) ->
  playlist_tracks (l_id english) (l_limit english) = Some englishRes ->
  playlist_tracks (l_id punjabi) (l_limit punjabi) = Some punjabiRes ->
  playlist_tracks (l_id hindi) (l_limit hindi) = Some hindiRes ->
  (forall t, In (Build_Item (Some t)) (englishRes ++ punjabiRes ++ hindiRes) ->
             Track.album t <> None /\ Track.external_urls t <> None) ->
  exists hits,
    mixed_hits shuffle playlist_tracks = Http.Json 200 (firstn 50 hits) /\
    Permutation (map h_id hits)
      (map Track.id (tracks_of (englishRes ++ punjabiRes ++ hindiRes))) /\
    forall h, In h hits -> In (h_language h) ["english"; "hindi"; "punjabi"].
Proof.
  intros Hperm He Hp Hh Hall.
  now apply (@mixed_hits_all_good shuffle Hperm playlist_tracks
               englishRes punjabiRes hindiRes He Hp Hh).
Qed.

Lemma mixed_hits_sends_all_tracks_witness :
  exists hits,
    mixed_hits Sample.keep_order Sample.lists_punjabi_only = Http.Json 200 (firstn 50 hits) /\
    Permutation (map h_id hits) ["t1"].
Proof.
  destruct (@mixed_hits_sends_all_tracks Sample.keep_order Sample.lists_punjabi_only
              [] [Build_Item (Some Sample.lover)] [])
    as (hits & E & P & _).
  - intros A l. apply Permutation_refl.
  - reflexivity.
  - reflexivity.
  - reflexivity.
  - intros t [E | []]. inversion E; subst. split; discriminate.
  - exists hits. split; [exact E | exact P].
Defined.

End AggregatorMore.

(** ** The playlist schema: frames, round trips and repeated calls *)

Module playlistSchemaMore.

Import playlistSchema.

Lemma save_frame (now : N) (this : Playlist.doc) (db : Db.t) :
  Db.users (snd (save now this db)) = Db.users db /\
  Db.songs (snd (save now this db)) = Db.songs db /\
  forall id, id <> Playlist._id this ->
             Db.playlists (snd (save now this db)) !! id = Db.playlists db !! id.
Proof.
  simpl. repeat split. intros id Hne. apply lookup_insert_ne. congruence.
Qed.

(** X13: [addSong], [removeSong] and [syncWithSpotify] touch one document
    only: the users, the songs and every other playlist of the store stay
    as they are, and the document keeps its [_id], its owner and its
    creation timestamp. *)
Theorem methods_frame (now : N) (songId : string) (spotifyData : SpotifyData)
    (this : Playlist.doc) (db : Db.t) :
  let touched (r : Playlist.doc * Db.t) :=
    Db.users (snd r) = Db.users db /\
    Db.songs (snd r) = Db.songs db /\
    (forall id, id <> Playlist._id this ->
                Db.playlists (snd r) !! id = Db.playlists db !! id) /\
    Playlist._id (fst r) = Playlist._id this /\
    Playlist.user (fst r) = Playlist.user this /\
    Playlist.createdAt (fst r) = Playlist.createdAt this in
  touched (addSong now songId this db) /\
  touched (removeSong now songId this db) /\
  touched (syncWithSpotify now spotifyData this db).
Proof.
  intros touched. subst touched. cbv beta. split; [|split].
  - unfold addSong. destruct (negb (includes (Playlist.songs this) songId)).
    + destruct (save_frame now
                  (Playlist.set_songs (Playlist.songs this ++ [songId]) this) db)
        as (Hu & Hs & Hp).
      repeat split; auto.
    + repeat split; auto.
  - unfold removeSong.
    destruct (save_frame now
                (Playlist.set_songs
                   (List.filter (fun id => negb (String.eqb id songId))
                      (Playlist.songs this)) this) db) as (Hu & Hs & Hp).
    repeat split; auto.
  - unfold syncWithSpotify.
    match goal with
    | |- context [save now ?p db] =>
        destruct (save_frame now p db) as (Hu & Hs & Hp)
    end.
    repeat split; auto.
Qed.

Lemma methods_frame_witness :
  Sample.mallory_id <> Playlist._id Sample.chill /\
  Db.users (snd (playlistSchema.removeSong 10 Sample.song1_id Sample.chill Sample.db))
  = Db.users Sample.db /\
  Db.songs (snd (playlistSchema.addSong 10 Sample.absent_id Sample.chill Sample.db))
  = Db.songs Sample.db /\
  Db.playlists (snd (syncWithSpotify 10 Sample.renamed Sample.chill Sample.db))
    !! Sample.mallory_id = Db.playlists Sample.db !! Sample.mallory_id.
Proof.
  assert (Hne : Sample.mallory_id <> Playlist._id Sample.chill) by discriminate.
  destruct (methods_frame 10 Sample.song1_id Sample.renamed Sample.chill Sample.db)
    as (_ & (Hu & _) & (_ & _ & Hp & _)).
  destruct (methods_frame 10 Sample.absent_id Sample.renamed Sample.chill Sample.db)
    as ((_ & Hs & _) & _).
  split; [exact Hne|]. split; [exact Hu|]. split; [exact Hs|]. exact (Hp _ Hne).
Defined.

Lemma others_app (songs : list string) (songId : string) :
  List.filter (fun id => negb (String.eqb id songId)) (songs ++ [songId])
  = List.filter (fun id => negb (String.eqb id songId)) songs.
Proof.
  rewrite List.filter_app. simpl. rewrite String.eqb_refl. simpl. apply app_nil_r.
Qed.

(** X14: adding a song the playlist does not hold and removing it again
    gives the playlist back, but for the update timestamp, and stores it;
    removing a song and adding it again moves the song to the end of the
    list. *)
Theorem addSong_removeSong_round_trip (now now' : N) (songId : string)
    (this : Playlist.doc) (db : Db.t) :
  let added := addSong now songId this db in
  let removed := removeSong now songId this db in
  (~ In songId (Playlist.songs this) ->
   fst (removeSong now' songId (fst added) (snd added)) = Playlist.set_updatedAt now' this /\
   Db.playlists (snd (removeSong now' songId (fst added) (snd added)))
     !! Playlist._id this = Some (Playlist.set_updatedAt now' this)) /\
  Playlist.songs (fst (addSong now' songId (fst removed) (snd removed)))
  = List.filter (fun id => negb (String.eqb id songId)) (Playlist.songs this) ++ [songId].
Proof.
  intros added removed. split.
  - intros H. subst added. rewrite playlistSchemaFacts.addSong_absent by exact H.
    assert (E : fst (removeSong now' songId
                       (fst (save now (Playlist.set_songs
                                         (Playlist.songs this ++ [songId]) this) db))
                       (snd (save now (Playlist.set_songs
                                         (Playlist.songs this ++ [songId]) this) db)))
                = Playlist.set_updatedAt now' this).
    { simpl. rewrite others_app, playlistSchemaFacts.others_absent by exact H.
      now destruct this. }
    split; [exact E|]. simpl in *. rewrite lookup_insert_eq. f_equal. exact E.
  - subst removed. rewrite playlistSchemaFacts.addSong_absent.
    + reflexivity.
    + simpl. intros K. apply playlistSchemaFacts.others_In in K. tauto.
Qed.

Lemma addSong_removeSong_round_trip_witness :
  ~ In Sample.absent_id (Playlist.songs Sample.chill) /\
  fst (removeSong 11 Sample.absent_id
         (fst (addSong 10 Sample.absent_id Sample.chill Sample.db))
         (snd (addSong 10 Sample.absent_id Sample.chill Sample.db)))
  = Playlist.set_updatedAt 11 Sample.chill.
Proof.
  assert (H : ~ In Sample.absent_id (Playlist.songs Sample.chill)).
  { simpl. intros [E | [E | []]]; discriminate E. }
  split; [exact H|].
  exact (proj1 (proj1 (addSong_removeSong_round_trip 10 11 Sample.absent_id
                         Sample.chill Sample.db) H)).
Defined.

Lemma others_twice (songs : list string) (songId : string) :
  List.filter (fun id => negb (String.eqb id songId))
    (List.filter (fun id => negb (String.eqb id songId)) songs)
  = List.filter (fun id => negb (String.eqb id songId)) songs.
Proof.
  apply playlistSchemaFacts.others_absent. intros K.
  apply playlistSchemaFacts.others_In in K. tauto.
Qed.

(** X15: removing the same song a second time changes nothing but the
    update timestamp: the playlist returned and stored is the one of the
    first removal with the time of the second save. *)
Theorem removeSong_twice (now now' : N) (songId : string) (this : Playlist.doc)
    (db : Db.t) :
  let once := removeSong now songId this db in
  let twice := removeSong now' songId (fst once) (snd once) in
  fst twice = Playlist.set_updatedAt now' (fst once) /\
  Playlist.songs (fst twice) = Playlist.songs (fst once) /\
  Db.playlists (snd twice) !! Playlist._id this = Some (fst twice).
Proof.
  simpl. rewrite others_twice. repeat split. apply lookup_insert_eq.
Qed.

Lemma or_else_twice (a : option jsstring) (b : jsstring) :
  JS.or_else a (JS.or_else a b) = JS.or_else a b.
Proof. now destruct a as [[|c s]|]. Qed.

(** X16: a second [syncWithSpotify] with the same catalog description
    changes nothing but the update timestamp. *)
Theorem syncWithSpotify_twice (now now' : N) (spotifyData : SpotifyData)
    (this : Playlist.doc) (db : Db.t) :
  let once := syncWithSpotify now spotifyData this db in
  let twice := syncWithSpotify now' spotifyData (fst once) (snd once) in
  fst twice = Playlist.set_updatedAt now' (fst once) /\
  Db.playlists (snd twice) !! Playlist._id this = Some (fst twice).
Proof.
  simpl. split; [|apply lookup_insert_eq].
  unfold Playlist.set_updatedAt. simpl. rewrite or_else_twice.
  destruct (JS.truthy (description spotifyData));
    destruct (JS.truthy_id (id spotifyData));
    destruct (images spotifyData) as [[|first rest]|]; reflexivity.
Qed.

End playlistSchemaMore.

(** ** The playlist routes: adding, playing, removing and listing *)

Module RoutesMore.

Import Routes.

(** X17: [POST /api/playlists/:playlistId/songs] changes the store only
    when it answers 200: with any error status (400, 403, 404, and the 500
    of a catalog request that throws or of a track the song document
    cannot be built from, both before the first write) the store is the
    one before the request.  The calls to the store are taken to answer: a
    500 caused by the store failing between two writes is not covered. *)
Theorem post_playlist_songs_error_atomic (env : Env) (userId playlistId : string)
    (spotifyId : option string) (db : Db.t) :
  Http.is_error (fst (post_playlist_songs env userId playlistId spotifyId db)) = true ->
  snd (post_playlist_songs env userId playlistId spotifyId db) = db.
Proof.
  unfold post_playlist_songs.
  destruct spotifyId as [[|c s]|]; try reflexivity.
  destruct (Db.playlists db !! playlistId) as [playlist|]; [|reflexivity].
  destruct (negb (String.eqb (Playlist.user playlist) userId)); [reflexivity|].
  destruct (get_track env (String c s)) as [track|]; [|reflexivity].
  destruct (findOneAndUpdate env track db) as [[song db1]|]; [|reflexivity].
  destruct (playlistSchema.addSong (now env) (Song._id song) playlist db1).
  simpl. discriminate.
Qed.

Lemma post_playlist_songs_error_atomic_witness :
  Http.is_error
    (fst (post_playlist_songs Sample.env Sample.alice_id Sample.chill_id (Some "t9")
            Sample.db)) = true /\
  post_playlist_songs Sample.env Sample.alice_id Sample.chill_id (Some "t9") Sample.db
  = (Http.Failure 500 "Failed to add song to playlist", Sample.db).
Proof.
  assert (H : Http.is_error
                (fst (post_playlist_songs Sample.env Sample.alice_id Sample.chill_id
                        (Some "t9") Sample.db)) = true) by reflexivity.
  split; [exact H|].
  pose proof (post_playlist_songs_error_atomic Sample.env Sample.alice_id
                Sample.chill_id (Some "t9") Sample.db H) as K.
  rewrite (surjective_pairing (post_playlist_songs _ _ _ _ _)), K. reflexivity.
Defined.

(** *** The song collection *)

Lemma song_with_spotifyId_Some (db : Db.t) (x : string) (s : Song.doc) :
  Db.song_with_spotifyId db x = Some s ->
  Song.spotifyId s = x /\ exists k, Db.songs db !! k = Some s.
Proof.
  unfold Db.song_with_spotifyId. intros H. apply find_some in H as [Hin E].
  apply String.eqb_eq in E. split; [exact E|].
  apply in_map_iff in Hin as ([k s'] & <- & Hin).
  exists k. apply elem_of_map_to_list. now apply list_elem_of_In.
Qed.

Lemma song_with_spotifyId_None (db : Db.t) (x k : string) (s : Song.doc) :
  Db.song_with_spotifyId db x = None ->
  Db.songs db !! k = Some s -> Song.spotifyId s <> x.
Proof.
  unfold Db.song_with_spotifyId. intros H Hk E.
  assert (Hin : In s (map snd (map_to_list (Db.songs db)))).
  { apply in_map_iff. exists (k, s). split; [reflexivity|].
    apply list_elem_of_In. now apply elem_of_map_to_list. }
  apply (find_none _ _ H) in Hin. apply String.eqb_neq in Hin. contradiction.
Qed.

Lemma song_with_spotifyId_unique (db : Db.t) (x k : string) (s : Song.doc) :
  Notions.spotifyId_unique db ->
  Db.songs db !! k = Some s -> Song.spotifyId s = x ->
  Db.song_with_spotifyId db x = Some s.
Proof.
  intros Hu Hk E. destruct (Db.song_with_spotifyId db x) as [s'|] eqn:F.
  - apply song_with_spotifyId_Some in F as [E' (k' & Hk')].
    assert (k' = k) by (eapply Hu; eauto; congruence). subst k'. congruence.
  - exfalso. eapply song_with_spotifyId_None; eauto.
Qed.

Section Upsert.

Variables (env : Env) (track : Track.t) (db db1 : Db.t) (song : Song.doc).
Hypothesis upserted : findOneAndUpdate env track db = Some (song, db1).

Lemma upsert_song :
  exists _id addedAt,
    song_update track _id addedAt = Some song /\
    Song._id song = _id /\ Song.addedAt song = addedAt /\
    Song.spotifyId song = Track.id track /\
    db1 = Db.write_song song db /\
    match Db.song_with_spotifyId db (Track.id track) with
    | Some found => _id = Song._id found
    | None => _id = new_id env
    end.
Proof.
  unfold findOneAndUpdate in upserted.
  destruct (song_update track _ _) as [song'|] eqn:E; [|discriminate].
  inversion upserted; subst. eexists _, _. split; [exact E|].
  unfold song_update in E. destruct (Track.album track); [|discriminate].
  inversion E; subst; simpl. repeat split.
  now destruct (Db.song_with_spotifyId db (Track.id track)).
Qed.

Lemma upsert_stored : Db.songs db1 !! Song._id song = Some song.
Proof.
  destruct upsert_song as (i & a & _ & _ & _ & _ & -> & _). simpl.
  apply lookup_insert_eq.
Qed.

Lemma upsert_other_collections :
  Db.playlists db1 = Db.playlists db /\ Db.users db1 = Db.users db.
Proof.
  destruct upsert_song as (i & a & _ & _ & _ & _ & -> & _). auto.
Qed.

Lemma upsert_keyed : Notions.songs_keyed db -> Notions.songs_keyed db1.
Proof.
  intros Hk k s. destruct upsert_song as (i & a & _ & _ & _ & _ & -> & _). simpl.
  destruct (decide (Song._id song = k)) as [<- | Hne].
  - rewrite lookup_insert_eq. now intros [= <-].
  - rewrite lookup_insert_ne by exact Hne. apply Hk.
Qed.

(** The upsert overwrites the song of the same catalog id, if there is
    one: the catalog ids stay unique. *)
Lemma upsert_unique :
  Notions.songs_keyed db -> Notions.spotifyId_unique db -> Notions.spotifyId_unique db1.
Proof.
  intros Hk Hu.
  destruct upsert_song as (i & a & _ & Hi & _ & Hsid & -> & Hfound).
  assert (Hold : forall k s, Db.songs db !! k = Some s ->
                             Song.spotifyId s = Track.id track -> k = Song._id song).
  { intros k s Hs E.
    destruct (Db.song_with_spotifyId db (Track.id track)) as [found|] eqn:F.
    - apply song_with_spotifyId_Some in F as [E' (k' & Hk')].
      rewrite Hi, Hfound, (Hk _ _ Hk'). eapply Hu; eauto. congruence.
    - exfalso. eapply song_with_spotifyId_None; eauto. }
  intros k1 k2 s1 s2. simpl.
  destruct (decide (Song._id song = k1)) as [<- | H1];
    destruct (decide (Song._id song = k2)) as [<- | H2]; auto.
  - rewrite lookup_insert_eq, lookup_insert_ne by exact H2.
    intros [= <-] H E. symmetry. eapply Hold; eauto. congruence.
  - rewrite lookup_insert_ne, lookup_insert_eq by exact H1.
    intros H [= <-] E. eapply Hold; eauto. congruence.
  - rewrite !lookup_insert_ne by assumption. apply Hu.
Qed.

End Upsert.

Lemma populate_songs_In (db : Db.t) (refs : list string) (id : string) (song : Song.doc) :
  In id refs -> Db.songs db !! id = Some song -> In song (Db.populate_songs db refs).
Proof.
  intros Hin Hs. unfold Db.populate_songs. apply list_elem_of_In, list_elem_of_omap.
  exists id. split; [now apply list_elem_of_In | exact Hs].
Qed.

Lemma addSong_owner (now : N) (songId : string) (this : Playlist.doc) (db : Db.t) :
  Playlist.user (fst (playlistSchema.addSong now songId this db)) = Playlist.user this /\
  Playlist._id (fst (playlistSchema.addSong now songId this db)) = Playlist._id this.
Proof.
  unfold playlistSchema.addSong.
  now destruct (negb (playlistSchema.includes (Playlist.songs this) songId)).
Qed.

Section Added.

Variables (env : Env) (userId playlistId spotifyId : string) (db : Db.t).
Variables (playlist : Playlist.doc) (track : Track.t) (album : Album.t).
Hypothesis named : spotifyId <> "".
Hypothesis found : Db.playlists db !! playlistId = Some playlist.
Hypothesis keyed : Playlist._id playlist = playlistId.
Hypothesis owner : Playlist.user playlist = userId.
Hypothesis in_catalog : get_track env spotifyId = Some track.
Hypothesis has_album : Track.album track = Some album.

Lemma upsert_succeeds : exists song db1, findOneAndUpdate env track db = Some (song, db1).
Proof.
  unfold findOneAndUpdate, song_update. rewrite has_album. eexists _, _. reflexivity.
Qed.

(** What the handler does once the checks have passed. *)
Lemma post_playlist_songs_added (song : Song.doc) (db1 : Db.t) :
  findOneAndUpdate env track db = Some (song, db1) ->
  post_playlist_songs env userId playlistId (Some spotifyId) db
  = (Http.Json 200
       (playlist_json
          (fst (playlistSchema.addSong (now env) (Song._id song) playlist db1))
          (map song_json
             (Db.populate_songs
                (snd (playlistSchema.addSong (now env) (Song._id song) playlist db1))
                (Playlist.songs
                   (fst (playlistSchema.addSong (now env) (Song._id song) playlist db1)))))),
     snd (playlistSchema.addSong (now env) (Song._id song) playlist db1)).
Proof.
  intros Hup. unfold post_playlist_songs.
  destruct spotifyId as [|c s]; [congruence|].
  rewrite found. apply String.eqb_eq in owner. rewrite owner. simpl.
  rewrite in_catalog, Hup.
  now destruct (playlistSchema.addSong (now env) (Song._id song) playlist db1).
Qed.

(** After [addSong] the store holds the playlist returned under the id of
    the request. *)
Lemma added_playlist_stored (song : Song.doc) (db1 : Db.t) :
  Db.playlists db1 = Db.playlists db ->
  Db.playlists (snd (playlistSchema.addSong (now env) (Song._id song) playlist db1))
    !! playlistId
  = Some (fst (playlistSchema.addSong (now env) (Song._id song) playlist db1)).
Proof.
  intros Hp. unfold playlistSchema.addSong.
  destruct (negb (playlistSchema.includes (Playlist.songs playlist) (Song._id song))).
  - simpl. rewrite keyed. apply lookup_insert_eq.
  - simpl. now rewrite Hp.
Qed.

Lemma added_songs_collection (song : Song.doc) (db1 : Db.t) :
  Db.songs (snd (playlistSchema.addSong (now env) (Song._id song) playlist db1))
  = Db.songs db1.
Proof.
  unfold playlistSchema.addSong.
  now destruct (negb (playlistSchema.includes (Playlist.songs playlist) (Song._id song))).
Qed.

End Added.

(** X18: when the owner adds a track the catalog knows (with its album),
    [POST /api/playlists/:playlistId/songs] answers 200 with a song list
    that holds the track, the store holds one song document for the track
    and the playlist refers to it, and [GET /api/playlists/:playlistId/play]
    on the store left behind answers 200 with the same song list. *)
Theorem add_then_play (env : Env) (userId playlistId spotifyId : string) (db : Db.t)
    (playlist : Playlist.doc) (track : Track.t) :
  spotifyId <> "" ->
  Db.playlists db !! playlistId = Some playlist ->
  Playlist._id playlist = playlistId ->
  Playlist.user playlist = userId ->
  get_track env spotifyId = Some track ->
  Track.album track <> None ->
  exists body db' song,
    post_playlist_songs env userId playlistId (Some spotifyId) db
    = (Http.Json 200 body, db') /\
    Db.songs db' !! Song._id song = Some song /\
    Song.spotifyId song = Track.id track /\
    In (song_json song) (pj_songs body) /\
    (exists stored, Db.playlists db' !! playlistId = Some stored /\
                    In (Song._id song) (Playlist.songs stored)) /\
    exists playback,
      get_playlist_play userId playlistId db' = (Http.Json 200 playback, db') /\
      pb_songs playback = pj_songs body.
Proof.
  intros Hnamed Hfound Hkeyed Howner Hcat Halbum.
  destruct (Track.album track) as [album|] eqn:Ha; [|congruence].
  destruct (@upsert_succeeds env db track album Ha) as (song & db1 & Hup).
  pose proof (@post_playlist_songs_added env userId playlistId spotifyId db playlist
                track Hnamed Hfound Howner Hcat song db1 Hup) as Hpost.
  destruct (@upsert_other_collections env track db db1 song Hup) as [Hpl _].
  pose proof (@added_playlist_stored env playlistId db playlist Hfound Hkeyed song db1
                Hpl) as Hstored.
  pose proof (added_songs_collection env playlist song db1) as Hsongs.
  pose proof (playlistSchemaFacts.addSong_In (now env) (Song._id song) playlist db1)
    as Hin.
  pose proof (addSong_owner (now env) (Song._id song) playlist db1) as [Huser _].
  destruct (@upsert_song env track db db1 song Hup) as (i & a & _ & _ & _ & Hsid & _ & _).
  set (r := playlistSchema.addSong (now env) (Song._id song) playlist db1) in *.
  exists (playlist_json (fst r)
            (map song_json (Db.populate_songs (snd r) (Playlist.songs (fst r))))),
    (snd r), song.
  split; [exact Hpost|].
  assert (Hs : Db.songs (snd r) !! Song._id song = Some song)
    by (rewrite Hsongs; exact (@upsert_stored env track db db1 song Hup)).
  split; [exact Hs|]. split; [exact Hsid|]. split.
  { simpl. apply in_map. eapply populate_songs_In; eauto. }
  split; [exists (fst r); auto|].
  eexists. split.
  - unfold get_playlist_play. rewrite Hstored, Huser.
    apply String.eqb_eq in Howner. rewrite Howner. simpl. reflexivity.
  - reflexivity.
Qed.

Lemma add_then_play_witness :
  exists body db',
    post_playlist_songs Sample.env Sample.alice_id Sample.chill_id (Some "t1") Sample.db
    = (Http.Json 200 body, db') /\
    exists playback,
      get_playlist_play Sample.alice_id Sample.chill_id db' = (Http.Json 200 playback, db') /\
      pb_songs playback = pj_songs body.
Proof.
  destruct (@add_then_play Sample.env Sample.alice_id Sample.chill_id "t1" Sample.db
              Sample.chill Sample.lover)
    as (body & db' & song & Hpost & _ & _ & _ & _ & Hplay).
  - discriminate.
  - reflexivity.
  - reflexivity.
  - reflexivity.
  - reflexivity.
  - discriminate.
  - exists body, db'. split; [exact Hpost | exact Hplay].
Defined.

Lemma write_song_same (song : Song.doc) (db : Db.t) :
  Db.songs db !! Song._id song = Some song -> Db.write_song song db = db.
Proof.
  destruct db as [us ps ss]. unfold Db.write_song. simpl. intros H.
  f_equal. now apply insert_id.
Qed.

Lemma sample_songs (k : string) (s : Song.doc) :
  Db.songs Sample.db !! k = Some s ->
  (k = Sample.song1_id /\ s = Sample.song1) \/ (k = Sample.song2_id /\ s = Sample.song2).
Proof.
  unfold Sample.db. simpl. intros H.
  apply lookup_insert_Some in H as [[<- <-] | [_ H]]; [now left|].
  apply lookup_insert_Some in H as [[<- <-] | [_ H]]; [now right|].
  rewrite lookup_empty in H. discriminate.
Qed.

Lemma sample_songs_keyed : Notions.songs_keyed Sample.db.
Proof.
  intros k s H. apply sample_songs in H as [[-> ->] | [-> ->]]; reflexivity.
Qed.

Lemma sample_spotifyId_unique : Notions.spotifyId_unique Sample.db.
Proof.
  intros k1 k2 s1 s2 H1 H2 E.
  apply sample_songs in H1 as [[-> ->] | [-> ->]];
    apply sample_songs in H2 as [[-> ->] | [-> ->]];
    first [reflexivity | discriminate E].
Qed.

(** X19: adding the same track a second time changes nothing: when the
    songs of the store are stored under their ids and have distinct
    catalog ids, a second [POST /api/playlists/:playlistId/songs] for the
    track, whenever it is made, gives the answer of the first and leaves
    the store the first left. *)
Theorem post_playlist_songs_twice (env env' : Env) (userId playlistId spotifyId : string)
    (db : Db.t) (playlist : Playlist.doc) (track : Track.t) :
  spotifyId <> "" ->
  Db.playlists db !! playlistId = Some playlist ->
  Playlist._id playlist = playlistId ->
  Playlist.user playlist = userId ->
  get_track env spotifyId = Some track ->
  get_track env' spotifyId = Some track ->
  Track.album track <> None ->
  Notions.songs_keyed db ->
  Notions.spotifyId_unique db ->
  let first := post_playlist_songs env userId playlistId (Some spotifyId) db in
  post_playlist_songs env' userId playlistId (Some spotifyId) (snd first) = first.
Proof.
  intros Hnamed Hfound Hkeyed Howner Hcat Hcat' Halbum Hk Hu first.
  destruct (Track.album track) as [album|] eqn:Ha; [|congruence].
  destruct (@upsert_succeeds env db track album Ha) as (song & db1 & Hup).
  pose proof (@post_playlist_songs_added env userId playlistId spotifyId db playlist
                track Hnamed Hfound Howner Hcat song db1 Hup) as Hpost.
  destruct (@upsert_other_collections env track db db1 song Hup) as [Hpl _].
  pose proof (@added_playlist_stored env playlistId db playlist Hfound Hkeyed song db1
                Hpl) as Hstored.
  pose proof (added_songs_collection env playlist song db1) as Hsongs.
  pose proof (playlistSchemaFacts.addSong_In (now env) (Song._id song) playlist db1)
    as Hin.
  pose proof (addSong_owner (now env) (Song._id song) playlist db1) as [Huser Hid].
  pose proof (@upsert_stored env track db db1 song Hup) as Hs1.
  pose proof (@upsert_unique env track db db1 song Hup Hk Hu) as Hu1.
  destruct (@upsert_song env track db db1 song Hup)
    as (i & a & Hupd & Hi & Haddr & Hsid & _ & _).
  set (r := playlistSchema.addSong (now env) (Song._id song) playlist db1) in *.
  subst first. rewrite Hpost. cbn [snd].
  (* the second upsert finds the song and writes it back as it is *)
  assert (Hu2 : Notions.spotifyId_unique (snd r)).
  { unfold Notions.spotifyId_unique. rewrite Hsongs. exact Hu1. }
  assert (Hs2 : Db.songs (snd r) !! Song._id song = Some song)
    by (rewrite Hsongs; exact Hs1).
  assert (Hup2 : findOneAndUpdate env' track (snd r) = Some (song, snd r)).
  { unfold findOneAndUpdate.
    rewrite (@song_with_spotifyId_unique (snd r) (Track.id track) (Song._id song) song
               Hu2 Hs2 Hsid).
    cbn [fst snd]. rewrite Hi, Haddr, Hupd.
    now rewrite write_song_same. }
  assert (Huser' : Playlist.user (fst r) = userId) by congruence.
  rewrite (@post_playlist_songs_added env' userId playlistId spotifyId (snd r) (fst r)
             track Hnamed Hstored Huser' Hcat' song (snd r) Hup2).
  rewrite playlistSchemaFacts.addSong_present by exact Hin. reflexivity.
Qed.

Lemma post_playlist_songs_twice_witness :
  post_playlist_songs Fixtures.env_later Sample.alice_id Sample.chill_id (Some "t1")
    (snd (post_playlist_songs Sample.env Sample.alice_id Sample.chill_id (Some "t1")
            Sample.db))
  = post_playlist_songs Sample.env Sample.alice_id Sample.chill_id (Some "t1") Sample.db.
Proof.
  apply (@post_playlist_songs_twice Sample.env Fixtures.env_later Sample.alice_id
           Sample.chill_id "t1" Sample.db Sample.chill Sample.lover).
  - discriminate.
  - reflexivity.
  - reflexivity.
  - reflexivity.
  - reflexivity.
  - reflexivity.
  - discriminate.
  - exact sample_songs_keyed.
  - exact sample_spotifyId_unique.
Defined.

(** X20: for the owner of a stored playlist,
    [DELETE /api/playlists/:playlistId/songs/:songId] answers 200 exactly
    when no song of the store is left in the playlist after the removal,
    and 500 otherwise; either way the store it leaves holds the playlist
    without the song. *)
Theorem delete_playlist_song_outcomes (env : Env) (userId playlistId songId : string)
    (playlist : Playlist.doc) (db : Db.t) :
  Db.playlists db !! playlistId = Some playlist ->
  Playlist.user playlist = userId ->
  let left :=
    Db.populate_songs db
      (List.filter (fun id => negb (String.eqb id songId)) (Playlist.songs playlist)) in
  let response := fst (delete_playlist_song env userId playlistId songId db) in
  let db' := snd (delete_playlist_song env userId playlistId songId db) in
  (left = [] -> Http.status response = 200%nat) /\
  (left <> [] -> response = Http.Failure 500 "Failed to remove song from playlist") /\
  db' = snd (playlistSchema.removeSong (now env) songId playlist db) /\
  exists stored,
    Db.playlists db' !! Playlist._id playlist = Some stored /\
    ~ In songId (Playlist.songs stored).
Proof.
  intros Hfound Howner left response db'. subst response db'.
  destruct left as [|song songs] eqn:E; subst left.
  - rewrite (@RoutesFacts.delete_song_none_left_200 env userId playlistId songId
               playlist db Hfound Howner E).
    split; [reflexivity|]. split; [congruence|]. split; [reflexivity|].
    eexists. split; [apply lookup_insert_eq|].
    simpl. intros K. apply playlistSchemaFacts.others_In in K. tauto.
  - rewrite (@RoutesFacts.delete_song_left_500 env userId playlistId songId
               playlist db Hfound Howner) by (rewrite E; discriminate).
    split; [discriminate|]. split; [reflexivity|]. split; [reflexivity|].
    eexists. split; [apply lookup_insert_eq|].
    simpl. intros K. apply playlistSchemaFacts.others_In in K. tauto.
Qed.

Lemma delete_playlist_song_outcomes_witness :
  Db.playlists Fixtures.db_one_song !! Sample.chill_id = Some Fixtures.chill_one_song /\
  Playlist.user Fixtures.chill_one_song = Sample.alice_id /\
  Http.status
    (fst (delete_playlist_song Sample.env Sample.alice_id Sample.chill_id Sample.song1_id
            Fixtures.db_one_song)) = 200%nat.
Proof.
  assert (Hfound : Db.playlists Fixtures.db_one_song !! Sample.chill_id
                   = Some Fixtures.chill_one_song) by reflexivity.
  assert (Howner : Playlist.user Fixtures.chill_one_song = Sample.alice_id)
    by reflexivity.
  split; [exact Hfound|]. split; [exact Howner|].
  destruct (@delete_playlist_song_outcomes Sample.env Sample.alice_id Sample.chill_id
              Sample.song1_id Fixtures.chill_one_song Fixtures.db_one_song Hfound Howner)
    as (H200 & _).
  apply H200. reflexivity.
Defined.

(** *** Listing *)

Section Listing.

Variable toLowerCase : jsstring -> jsstring.

Lemma unique_by_name_all (seen : gset (list N)) (l : list Playlist.doc) :
  List.NoDup (map (name_lower toLowerCase) l) ->
  (forall p, In p l -> name_lower toLowerCase p ∉ seen) ->
  unique_by_name toLowerCase seen l = l.
Proof.
  revert seen; induction l as [|p l IH]; intros seen Hnd Hseen; simpl; [reflexivity|].
  inversion Hnd as [|x xs Hx Hxs]; subst.
  rewrite bool_decide_eq_false_2 by (apply Hseen; now left).
  f_equal. apply IH; [exact Hxs|].
  intros q Hq. intros K. apply elem_of_union in K as [K | K].
  - apply elem_of_singleton in K. apply Hx. rewrite <- K. now apply in_map.
  - apply (Hseen q); [now right | exact K].
Qed.

(** X21: [GET /api/playlists] never sends more playlists than the owner's
    references resolve to, and when no two of these playlists have the
    same lower-cased name it sends every one of them, in the stored
    order. *)
Theorem get_playlists_distinct_names (userId : string) (db : Db.t) (user : User.doc) :
  Db.users db !! userId = Some user ->
  let stored := Db.populate_playlists db (User.playlists user) in
  let entry p :=
    playlist_json p (map song_json (Db.populate_songs db (Playlist.songs p))) in
  (exists sent,
     get_playlists toLowerCase userId db = (Http.Json 200 sent, db) /\
     (List.length sent <= List.length stored)%nat) /\
  (List.NoDup (map (fun p => toLowerCase (Playlist.name p)) stored) ->
   get_playlists toLowerCase userId db = (Http.Json 200 (map entry stored), db)).
Proof.
  intros Huser stored entry. unfold get_playlists. rewrite Huser. split.
  - eexists. split; [reflexivity|]. rewrite length_map.
    apply sublist_length, RoutesFacts.unique_by_name_sublist.
  - intros Hnd. fold stored. rewrite unique_by_name_all; [reflexivity | exact Hnd |].
    intros p _. apply not_elem_of_empty.
Qed.

(** X22: a playlist just created is listed: after a [POST /api/playlists]
    that found the name free, [GET /api/playlists] of the same owner
    answers 200 with an array that holds the new playlist, without
    songs. *)
Theorem created_playlist_listed (env : Env) (userId : string) (name : jsstring)
    (description : option jsstring) (db : Db.t) (user : User.doc) :
  name <> [] ->
  Db.users db !! userId = Some user ->
  User._id user = userId ->
  (forall p, In p (Db.populate_playlists db (User.playlists user)) ->
             toLowerCase (Playlist.name p) <> toLowerCase name) ->
  let db' := snd (post_playlists toLowerCase env userId (Some name) description db) in
  exists sent,
    get_playlists toLowerCase userId db' = (Http.Json 200 sent, db') /\
    In (playlist_json (new_Playlist env name description userId) []) sent.
Proof.
  intros Hname Huser Hid Hfree db'. subst db'.
  rewrite (@RoutesFacts.post_playlists_free toLowerCase env userId name description db
             user Hname Huser Hfree).
  cbn [snd]. set (created := new_Playlist env name description userId).
  set (user' := User.set_playlists (User.playlists user ++ [new_id env]) user).
  set (db' := Db.write_user user' (Db.write_playlist created db)).
  assert (Huser' : Db.users db' !! userId = Some user').
  { subst db' user'. simpl. rewrite Hid. apply lookup_insert_eq. }
  assert (Hnew : Db.playlists db' !! new_id env = Some created).
  { subst db' created. simpl. apply lookup_insert_eq. }
  assert (Hold : forall id, id <> new_id env ->
                            Db.playlists db' !! id = Db.playlists db !! id).
  { intros id Hne. subst db' created. simpl. now apply lookup_insert_ne. }
  unfold get_playlists. rewrite Huser'. eexists. split; [reflexivity|].
  set (stored := Db.populate_playlists db' (User.playlists user')).
  assert (Hin : In created stored).
  { apply RoutesFacts.populate_playlists_In. exists (new_id env). split; [|exact Hnew].
    subst user'. simpl. apply in_or_app. right. now left. }
  apply (RoutesFacts.unique_by_name_covers toLowerCase ∅) in Hin
    as [Hin | (q & Hq & E)]; [now apply not_elem_of_empty in Hin|].
  assert (q = created).
  { assert (Hqs : In q stored).
    { apply list_elem_of_In.
      eapply elem_of_sublist; [|apply (RoutesFacts.unique_by_name_sublist toLowerCase ∅)].
      now apply list_elem_of_In. }
    apply RoutesFacts.populate_playlists_In in Hqs as (id & Hid' & Hq').
    destruct (decide (id = new_id env)) as [-> | Hne]; [congruence|].
    exfalso. rewrite (Hold id Hne) in Hq'.
    apply (Hfree q); [|exact E].
    apply RoutesFacts.populate_playlists_In. exists id. split; [|exact Hq'].
    subst user'. simpl in Hid'. apply in_app_or in Hid' as [K | [K | []]];
      [exact K | congruence]. }
  subst q.
  apply in_map_iff. exists created. split; [reflexivity | exact Hq].
Qed.

(** X23: [POST /api/playlists] changes the store only when it answers
    201: with any error status (400 for a missing name or a taken name,
    404 for an unknown owner) the store is the one before the request.
    The calls to the store are taken to answer: the 500 of a store call
    that fails between the two writes is not covered. *)
Theorem post_playlists_error_atomic (env : Env) (userId : string)
    (name description : option jsstring) (db : Db.t) :
  Http.is_error (fst (post_playlists toLowerCase env userId name description db)) = true ->
  snd (post_playlists toLowerCase env userId name description db) = db.
Proof.
  unfold post_playlists.
  destruct name as [[|c s]|]; try reflexivity.
  destruct (Db.users db !! userId) as [user|]; [|reflexivity].
  destruct (List.find _ _); [reflexivity|].
  simpl. discriminate.
Qed.

End Listing.

Lemma post_playlists_error_atomic_witness :
  Http.is_error
    (fst (post_playlists JS.ascii_toLowerCase Sample.env Sample.alice_id
            (Some (JS.of_ascii "CHILL")) None Sample.db)) = true /\
  post_playlists JS.ascii_toLowerCase Sample.env Sample.alice_id
    (Some (JS.of_ascii "CHILL")) None Sample.db
  = (Http.Failure 400 "A playlist with this name already exists", Sample.db).
Proof.
  assert (H : Http.is_error
                (fst (post_playlists JS.ascii_toLowerCase Sample.env Sample.alice_id
                        (Some (JS.of_ascii "CHILL")) None Sample.db)) = true)
    by reflexivity.
  split; [exact H|].
  pose proof (@post_playlists_error_atomic JS.ascii_toLowerCase Sample.env
                Sample.alice_id (Some (JS.of_ascii "CHILL")) None Sample.db H) as K.
  rewrite (surjective_pairing (post_playlists _ _ _ _ _ _)), K. reflexivity.
Defined.

Lemma get_playlists_distinct_names_witness :
  Db.users Fixtures.db_bob_distinct !! Sample.bob_id = Some Sample.bob /\
  List.length (Db.populate_playlists Fixtures.db_bob_distinct
                 (User.playlists Sample.bob)) = 3%nat /\
  exists sent,
    get_playlists JS.ascii_toLowerCase Sample.bob_id Fixtures.db_bob_distinct
    = (Http.Json 200 sent, Fixtures.db_bob_distinct) /\
    map pj_name sent = [JS.of_ascii "Chill"; JS.of_ascii "Gym"; JS.of_ascii "Work"].
Proof.
  assert (Huser : Db.users Fixtures.db_bob_distinct !! Sample.bob_id = Some Sample.bob)
    by reflexivity.
  split; [exact Huser|]. split; [reflexivity|].
  destruct (@get_playlists_distinct_names JS.ascii_toLowerCase Sample.bob_id
              Fixtures.db_bob_distinct Sample.bob Huser) as [_ Hall].
  eexists. split.
  - apply Hall. vm_compute.
    constructor; [intros [H|[H|[]]]; discriminate H|].
    constructor; [intros [H|[]]; discriminate H|].
    constructor; [intros [] | constructor].
  - reflexivity.
Defined.

Lemma created_playlist_listed_witness :
  exists sent,
    get_playlists JS.ascii_toLowerCase Sample.alice_id
      (snd (post_playlists JS.ascii_toLowerCase Sample.env Sample.alice_id
              (Some (JS.of_ascii "Road Trip")) None Sample.db))
    = (Http.Json 200 sent,
       snd (post_playlists JS.ascii_toLowerCase Sample.env Sample.alice_id
              (Some (JS.of_ascii "Road Trip")) None Sample.db)) /\
    In (JS.of_ascii "Road Trip") (map pj_name sent).
Proof.
  destruct (@created_playlist_listed JS.ascii_toLowerCase Sample.env Sample.alice_id
              (JS.of_ascii "Road Trip") None Sample.db Sample.alice)
    as (sent & E & Hin).
  - discriminate.
  - reflexivity.
  - reflexivity.
  - intros p Hp. apply RoutesFacts.populate_playlists_In in Hp as (id & Hi & E).
    destruct Hi as [<- | []]. vm_compute in E. inversion E; subst.
    vm_compute. discriminate.
  - exists sent. split; [exact E|].
    apply in_map_iff. eexists. split; [|exact Hin]. reflexivity.
Defined.

End RoutesMore.
